(** * FloatingContributors: the live-activity widget of recode-website

    A shallow embedding of [src/components/FloatingContributors/index.tsx]
    and the properties of its relative-time formatting, contributor merge,
    retry policy, rotation index and render function.

    Conventions of the embedding:
    - a JavaScript [number] that holds a count, an identifier or a
      millisecond timestamp is a [Z]; a [number] that may be [NaN] (the
      result of arithmetic on [undefined]) is a [JsNum];
    - the value of [Math.random()] is an IEEE-754 binary64 number, a
      [spec_float] of the Standard Library, and its product with an array
      length is the correctly rounded binary64 product [SFmul 53 1024];
    - a [Map] is an association list in insertion order, because
      [Array.from(map.values())] and the stable [sort] observe that order;
    - the component is a state record, and what React does with it (commit
      a state change, run an effect whose dependency changed, fire a timer)
      is a step function over events. *)

From Stdlib Require Import ZArith List Bool String Ascii Lia.
From Stdlib Require Import DecimalString Sorted Permutation.
From Stdlib Require Import SpecFloat.
Import ListNotations.

Local Open Scope list_scope.
Local Open Scope string_scope.
Local Open Scope Z_scope.

(** ** JavaScript values *)

(** A [number] that is an integer or [NaN]. *)
Inductive JsNum : Type :=
  | Num (z : Z)
  | NaN.

(** [`${n}`] and [n.toString()] for an integer [n]. *)
Definition toString (n : Z) : string :=
  NilZero.string_of_int (Z.to_int n).

(** ** Relative time *)

Module TimeAgo.

(** [formatTimeAgo], lines 181-201; [currentTime] is the component's state
    variable.  Every comparison with [NaN] is false, so a [NaN] timestamp
    falls through to the last template. *)
Definition formatTimeAgo (currentTime : Z) (timestamp : JsNum) : string :=
  match timestamp with
  | NaN => "NaN days ago"
  | Num timestamp =>
    let now := currentTime in
    let diffInSeconds := (now - timestamp) / 1000 in
    if diffInSeconds <? 60 then
      if diffInSeconds <=? 30 then "just now"
      else toString diffInSeconds ++ " seconds ago"
    else
      let diffInMinutes := diffInSeconds / 60 in
      if diffInMinutes <? 60 then
        if diffInMinutes =? 1 then "1 minute ago"
        else toString diffInMinutes ++ " minutes ago"
      else
        let diffInHours := diffInMinutes / 60 in
        if diffInHours <? 24 then
          if diffInHours =? 1 then "1 hour ago"
          else toString diffInHours ++ " hours ago"
        else
          let diffInDays := diffInHours / 24 in
          if diffInDays =? 1 then "1 day ago"
          else toString diffInDays ++ " days ago"
  end.

(** The rule as the specification words it, on the difference in seconds
    [d]: a count of units with singular or plural wording. *)
Definition counted (n : Z) (unit : string) : string :=
  if n =? 1 then "1 " ++ unit ++ " ago"
  else toString n ++ " " ++ unit ++ "s ago".

Definition relative_time_rule (d : Z) : string :=
  if d <=? 30 then "just now"
  else if d <? 60 then toString d ++ " seconds ago"
  else if d <? 3600 then counted (d / 60) "minute"
  else if d <? 86400 then counted (d / 3600) "hour"
  else counted (d / 86400) "day".

End TimeAgo.

(** ** The clock and the random source *)

Module Random.

(** Binary64. *)
Definition prec : Z := 53.
Definition emax : Z := 1024.

(** The binary64 value of an integer literal or of an array length. *)
Definition number_of_int (z : Z) : spec_float :=
  binary_normalize prec emax z 0 false.

(** [a * b] on binary64 numbers. *)
Definition js_mul (a b : spec_float) : spec_float := SFmul prec emax a b.

(** [Math.floor], as the integer it denotes; [None] for [NaN] and the
    infinities, which denote none. *)
Definition Math_floor (x : spec_float) : option Z :=
  match x with
  | S754_zero _ => Some 0
  | S754_finite s m e =>
      if 0 <=? e then Some (cond_Zopp s (Zpos m) * 2 ^ e)
      else Some (cond_Zopp s (Zpos m) / 2 ^ (- e))
  | S754_infinity _ | S754_nan => None
  end.

(** [arr[i]]: [None] is [undefined], the value of an index that is not
    one of the array's. *)
Definition array_get {A : Type} (arr : list A) (i : option Z) : option A :=
  match i with
  | Some i => if i <? 0 then None else nth_error arr (Z.to_nat i)
  | None => None
  end.

(** What [Math.random()] may return: a binary64 number with positive sign,
    at least [+0] and strictly below [1]. *)
Definition is_unit_draw (r : spec_float) : bool :=
  valid_binary prec emax r &&
  SFleb (S754_zero false) r &&
  SFltb r (SFone prec emax) &&
  match r with S754_zero true => false | _ => true end.

(** The environment of one run: the successive values of [Date.now()] and
    of [Math.random()]. *)
Record World : Type := {
  clock : nat -> Z;
  dice : nat -> spec_float
}.

Definition Date_now (w : World) : Z * World :=
  (clock w 0%nat, {| clock := fun n => clock w (S n); dice := dice w |}).

Definition Math_random (w : World) : spec_float * World :=
  (dice w 0%nat, {| clock := clock w; dice := fun n => dice w (S n) |}).

(** [timeOffsets], lines 166-176. *)
Definition timeOffsets : list Z :=
  [ 30 * 1000;
    2 * 60 * 1000;
    5 * 60 * 1000;
    10 * 60 * 1000;
    30 * 60 * 1000;
    60 * 60 * 1000;
    2 * 60 * 60 * 1000;
    24 * 60 * 60 * 1000;
    2 * 24 * 60 * 60 * 1000 ].

(** [Math.floor(Math.random() * arr.length)]. *)
Definition randomIndex {A : Type} (arr : list A) (r : spec_float) : option Z :=
  Math_floor (js_mul r (number_of_int (Z.of_nat (List.length arr)))).

(** [generateRandomTimestamp], lines 164-179: [now - undefined] is
    [NaN]. *)
Definition generateRandomTimestamp (w : World) : JsNum * World :=
  let (now, w) := Date_now w in
  let (r, w) := Math_random w in
  let randomOffset := array_get timeOffsets (randomIndex timeOffsets r) in
  match randomOffset with
  | Some randomOffset => (Num (now - randomOffset), w)
  | None => (NaN, w)
  end.

End Random.

(** ** The data model *)

Module Model.
Import Random.

(** [interface Contributor], lines 5-12. *)
Record Contributor : Type := {
  id : string;
  login : string;
  avatar_url : string;
  contributions : Z;
  html_url : string;
  lastActivity : JsNum
}.

Inductive Action : Type := checked_in | contributed | starred | forked.

(** [interface ContributorActivity], lines 14-18.  The [action] is
    [None] when it is [undefined]. *)
Record ContributorActivity : Type := {
  contributor : Contributor;
  action : option Action;
  timestamp : JsNum
}.

(** An element of the array the contributors endpoint returns.  A missing
    [login] is [None]; a missing [type] is any string other than "User". *)
Record ApiContributor : Type := {
  api_login : option string;
  api_type : string;
  api_id : Z;
  api_avatar_url : string;
  api_contributions : Z;
  api_html_url : string
}.

(** An element of the array the repositories endpoint returns. *)
Record Repo : Type := {
  name : string;
  full_name : string
}.

(** The body of a response, as [response.json()] and [Array.isArray] see
    it, and what [fetch] resolves with. *)
Inductive Body (A : Type) : Type :=
  | BodyInvalid
  | BodyOther
  | BodyArray (items : list A).

Inductive Response (A : Type) : Type :=
  | FetchRejected
  | HttpError (status : Z)
  | HttpOk (body : Body A).

Arguments BodyInvalid {A}.
Arguments BodyOther {A}.
Arguments BodyArray {A} items.
Arguments FetchRejected {A}.
Arguments HttpError {A} status.
Arguments HttpOk {A} body.

(** The API during one fetch cycle: the repository listing and, per
    [full_name], the contributors listing. *)
Record Network : Type := {
  repos_response : Response Repo;
  contributors_response : string -> Response ApiContributor
}.

(** [getRandomAction], lines 203-206. *)
Definition actions : list Action := [checked_in; contributed; starred; forked].

Definition getRandomAction (w : World) : option Action * World :=
  let (r, w) := Math_random w in
  (array_get actions (randomIndex actions r), w).

(** [getActionText], lines 218-226. *)
Definition getActionText (a : option Action) : string :=
  match a with
  | Some checked_in => "Checked-in"
  | Some contributed => "Contributed"
  | Some starred => "Starred"
  | Some forked => "Forked"
  | None => "Active"
  end.

End Model.

(** ** The fetch cycle *)

Module Fetch.
Import Random Model.

(** [contributorsMap]: a [Map] keeps its keys in insertion order. *)
Definition ContributorsMap : Type := list (string * Contributor).

Fixpoint map_get (k : string) (m : ContributorsMap) : option Contributor :=
  match m with
  | [] => None
  | (k', v) :: m' => if String.eqb k k' then Some v else map_get k m'
  end.

(** [Map.prototype.set]: the value of a present key is replaced where it
    is, a new key goes last. *)
Fixpoint map_set (k : string) (v : Contributor) (m : ContributorsMap)
  : ContributorsMap :=
  match m with
  | [] => [(k, v)]
  | (k', v') :: m' =>
      if String.eqb k k' then (k', v) :: m' else (k', v') :: map_set k v m'
  end.

(** [Array.from(map.values())]. *)
Definition map_values (m : ContributorsMap) : list Contributor :=
  map snd m.

(** [contributor.login && contributor.type === 'User']: the login when it
    is a non-empty string and the account is a user's. *)
Definition accepted_login (c : ApiContributor) : option string :=
  match api_login c with
  | Some l =>
      if String.eqb l "" then None
      else if String.eqb (api_type c) "User" then Some l
      else None
  | None => None
  end.

(** [existing.contributions += n].  [existing] is the object the map
    holds, so the caller stores the result under the same key. *)
Definition add_contributions (existing : Contributor) (n : Z) : Contributor :=
  {| id := id existing;
     login := login existing;
     avatar_url := avatar_url existing;
     contributions := contributions existing + n;
     html_url := html_url existing;
     lastActivity := lastActivity existing |}.

(** The callback of [repoContributors.forEach], lines 77-93. *)
Definition addContributor (acc : ContributorsMap * World) (c : ApiContributor)
  : ContributorsMap * World :=
  let (contributorsMap, w) := acc in
  match accepted_login c with
  | Some l =>
      match map_get l contributorsMap with
      | Some existing =>
          (map_set l (add_contributions existing (api_contributions c))
             contributorsMap, w)
      | None =>
          let (t, w) := generateRandomTimestamp w in
          (map_set l
             {| id := toString (api_id c);
                login := l;
                avatar_url := api_avatar_url c;
                contributions := api_contributions c;
                html_url := api_html_url c;
                lastActivity := t |}
             contributorsMap, w)
      end
  | None => (contributorsMap, w)
  end.

(** The body of the loop over repositories, lines 63-98: a response that
    is rejected, not OK or not an array leaves the map as it is. *)
Definition addRepo (acc : ContributorsMap * World)
    (r : Response ApiContributor) : ContributorsMap * World :=
  match r with
  | HttpOk (BodyArray repoContributors) =>
      fold_left addContributor repoContributors acc
  | _ => acc
  end.

Definition collectContributors (responses : list (Response ApiContributor))
    (w : World) : ContributorsMap * World :=
  fold_left addRepo responses ([], w).

(** [Array.prototype.sort(cmp)]: the sort is stable, and for a consistent
    comparator its result is the one a stable insertion sort gives. *)
Fixpoint insert_by {A : Type} (cmp : A -> A -> Z) (x : A) (l : list A)
  : list A :=
  match l with
  | [] => [x]
  | y :: l' => if cmp x y <=? 0 then x :: l else y :: insert_by cmp x l'
  end.

Definition sort_by {A : Type} (cmp : A -> A -> Z) (l : list A) : list A :=
  fold_right (insert_by cmp) [] l.

(** [liveContributors.map(contributor => ({...}))], lines 107-111. *)
Fixpoint synthesizeActivities (l : list Contributor) (w : World)
  : list ContributorActivity * World :=
  match l with
  | [] => ([], w)
  | c :: l' =>
      let (a, w) := getRandomAction w in
      let (rest, w) := synthesizeActivities l' w in
      ({| contributor := c; action := a; timestamp := lastActivity c |}
         :: rest, w)
  end.

(** What the [catch] of line 117 receives. *)
Inductive FetchError : Type :=
  | Rejected
  | GitHubApiError (status : Z)
  | InvalidJson
  | InvalidReposResponse
  | NoContributorsFound.

Inductive FetchResult : Type :=
  | Fetched (liveContributors : list Contributor)
            (synthesized : list ContributorActivity)
  | FetchFailed (e : FetchError).

(** The [try] block of [fetchLiveContributors], lines 38-115, up to the
    state updates, which [Widget.settle] applies. *)
Definition fetchLiveContributors (net : Network) (w : World) : FetchResult :=
  match repos_response net with
  | FetchRejected => FetchFailed Rejected
  | HttpError status => FetchFailed (GitHubApiError status)
  | HttpOk BodyInvalid => FetchFailed InvalidJson
  | HttpOk BodyOther => FetchFailed InvalidReposResponse
  | HttpOk (BodyArray repos) =>
      let (contributorsMap, w) :=
        collectContributors
          (map (fun repo => contributors_response net (full_name repo))
               (firstn 8 repos)) w in
      let liveContributors :=
        firstn 15
          (sort_by (fun a b => contributions b - contributions a)
                   (map_values contributorsMap)) in
      if (0 <? List.length liveContributors)%nat then
        Fetched liveContributors (fst (synthesizeActivities liveContributors w))
      else FetchFailed NoContributorsFound
  end.

End Fetch.

(** ** The component *)

Module Widget.
Import Random Model Fetch TimeAgo.

(** The state variables of lines 25-31, and what React holds for the
    component besides them: the dependency [retryCount] had when the fetch
    effect last ran, the [retryCount] each pending call of
    [fetchLiveContributors] closed over, and the delays of the pending
    [setTimeout] callbacks of line 122. *)
Record Component : Type := {
  contributors : list Contributor;
  activities : list ContributorActivity;
  currentActivityIndex : Z;
  isVisible : bool;
  loading : bool;
  currentTime : Z;
  retryCount : Z;
  effectDeps : option Z;
  inFlight : list Z;
  retryTimers : list Z
}.

(** The state at mount: the initial values of the [useState] calls, no
    effect run yet. *)
Definition mount (now : Z) : Component :=
  {| contributors := [];
     activities := [];
     currentActivityIndex := 0;
     isVisible := true;
     loading := true;
     currentTime := now;
     retryCount := 0;
     effectDeps := None;
     inFlight := [];
     retryTimers := [] |}.

Definition setRetryCount (n : Z) (st : Component) : Component :=
  {| contributors := contributors st;
     activities := activities st;
     currentActivityIndex := currentActivityIndex st;
     isVisible := isVisible st;
     loading := loading st;
     currentTime := currentTime st;
     retryCount := n;
     effectDeps := effectDeps st;
     inFlight := inFlight st;
     retryTimers := retryTimers st |}.

Definition setCurrentTime (now : Z) (st : Component) : Component :=
  {| contributors := contributors st;
     activities := activities st;
     currentActivityIndex := currentActivityIndex st;
     isVisible := isVisible st;
     loading := loading st;
     currentTime := now;
     retryCount := retryCount st;
     effectDeps := effectDeps st;
     inFlight := inFlight st;
     retryTimers := retryTimers st |}.

Definition setCurrentActivityIndex (i : Z) (st : Component) : Component :=
  {| contributors := contributors st;
     activities := activities st;
     currentActivityIndex := i;
     isVisible := isVisible st;
     loading := loading st;
     currentTime := currentTime st;
     retryCount := retryCount st;
     effectDeps := effectDeps st;
     inFlight := inFlight st;
     retryTimers := retryTimers st |}.

Definition setIsVisible (b : bool) (st : Component) : Component :=
  {| contributors := contributors st;
     activities := activities st;
     currentActivityIndex := currentActivityIndex st;
     isVisible := b;
     loading := loading st;
     currentTime := currentTime st;
     retryCount := retryCount st;
     effectDeps := effectDeps st;
     inFlight := inFlight st;
     retryTimers := retryTimers st |}.

(** [xs] without its [i]-th element. *)
Fixpoint remove_nth {A : Type} (i : nat) (xs : list A) : list A :=
  match xs, i with
  | [], _ => []
  | _ :: xs', O => xs'
  | x :: xs', S i' => x :: remove_nth i' xs'
  end.

(** The retry of lines 121-125: the delay of the timer that a failed fetch
    sets, if it sets one; [captured] is the [retryCount] the effect closed
    over. *)
Definition retryDelay (captured : Z) : option Z :=
  if captured <? 3 then Some (5000 * (captured + 1)) else None.

(** The fetch effect runs: line 39 sets [loading], and the call stays
    pending. *)
Definition runFetchEffect (st : Component) : Component :=
  {| contributors := contributors st;
     activities := activities st;
     currentActivityIndex := currentActivityIndex st;
     isVisible := isVisible st;
     loading := true;
     currentTime := currentTime st;
     retryCount := retryCount st;
     effectDeps := Some (retryCount st);
     inFlight := inFlight st ++ [retryCount st];
     retryTimers := retryTimers st |}.

(** The [i]-th pending call settles with [result]: the state updates of
    lines 105-115, the [catch] of lines 117-125 and the [finally] of line
    127, committed together. *)
Definition settle (i : nat) (captured : Z) (result : FetchResult)
    (st : Component) : Component :=
  match result with
  | Fetched liveContributors synthesized =>
      {| contributors := liveContributors;
         activities := synthesized;
         currentActivityIndex := currentActivityIndex st;
         isVisible := isVisible st;
         loading := false;
         currentTime := currentTime st;
         retryCount := 0;
         effectDeps := effectDeps st;
         inFlight := remove_nth i (inFlight st);
         retryTimers := retryTimers st |}
  | FetchFailed _ =>
      {| contributors := contributors st;
         activities := activities st;
         currentActivityIndex := currentActivityIndex st;
         isVisible := isVisible st;
         loading := false;
         currentTime := currentTime st;
         retryCount := retryCount st;
         effectDeps := effectDeps st;
         inFlight := remove_nth i (inFlight st);
         retryTimers :=
           retryTimers st ++
           match retryDelay captured with
           | Some delay => [delay]
           | None => []
           end |}
  end.

(** The [i]-th retry timer fires: [setRetryCount(prev => prev + 1)]. *)
Definition fireRetryTimer (i : nat) (st : Component) : Component :=
  {| contributors := contributors st;
     activities := activities st;
     currentActivityIndex := currentActivityIndex st;
     isVisible := isVisible st;
     loading := loading st;
     currentTime := currentTime st;
     retryCount := retryCount st + 1;
     effectDeps := effectDeps st;
     inFlight := inFlight st;
     retryTimers := remove_nth i (retryTimers st) |}.

(** The updater of line 157; [%] is the remainder of truncated
    division. *)
Definition rotate (st : Component) : Component :=
  setCurrentActivityIndex
    (Z.rem (currentActivityIndex st + 1)
           (Z.of_nat (List.length (activities st)))) st.

(** What the card shows. *)
Record Card : Type := {
  shown : ContributorActivity;
  action_text : string;
  time_text : string;
  contributor_count : nat;
  avatars : list Contributor;
  more : option Z
}.

(** What the render function returns: the placeholder of lines 229-240,
    [null], the [AnimatePresence] with or without its child, or the
    [TypeError] of reading a property of [undefined]. *)
Inductive Rendered : Type :=
  | LoadingPlaceholder
  | Null
  | Presence (child : option Card)
  | TypeError.

(** The render function, lines 228-424. *)
Definition render (st : Component) : Rendered :=
  if loading st then LoadingPlaceholder
  else if (List.length (activities st) =? 0)%nat then Null
  else
    let currentActivity :=
      array_get (activities st) (Some (currentActivityIndex st)) in
    if isVisible st then
      match currentActivity with
      | Some a =>
          Presence (Some
            {| shown := a;
               action_text := getActionText (action a);
               time_text := formatTimeAgo (currentTime st) (timestamp a);
               contributor_count := List.length (contributors st);
               avatars := firstn 8 (contributors st);
               more :=
                 if (8 <? List.length (contributors st))%nat
                 then Some (Z.of_nat (List.length (contributors st)) - 8)
                 else None |})
      | None => TypeError
      end
    else Presence None.

(** The component puts nothing on the page. *)
Definition renders_nothing (r : Rendered) : bool :=
  match r with
  | Null | Presence None => true
  | _ => false
  end.

(** The fetch effect is due: [retryCount] is not what it was when the
    effect last ran (line 132). *)
Definition effect_pending (st : Component) : bool :=
  match effectDeps st with
  | Some d => negb (d =? retryCount st)
  | None => true
  end.

Inductive Event : Type :=
  | RunFetchEffect
  | FetchSettles (i : nat) (net : Network) (w : World)
  | RetryTimerFires (i : nat)
  | RefreshTick
  | ClockTick (now : Z)
  | RotationTick
  | Dismiss.

(** One step of the component; [None] when the event cannot happen in
    this state.  React runs a due effect before anything else; the
    rotation interval exists while the list is not empty (line 154); the
    close button exists while the card is rendered. *)
Definition step (st : Component) (ev : Event) : option Component :=
  match ev with
  | RunFetchEffect =>
      if effect_pending st then Some (runFetchEffect st) else None
  | _ =>
    if effect_pending st then None else
    match ev with
    | RunFetchEffect => None
    | FetchSettles i net w =>
        match nth_error (inFlight st) i with
        | Some captured =>
            Some (settle i captured (fetchLiveContributors net w) st)
        | None => None
        end
    | RetryTimerFires i =>
        match nth_error (retryTimers st) i with
        | Some _ => Some (fireRetryTimer i st)
        | None => None
        end
    | RefreshTick => Some (setRetryCount 0 st)
    | ClockTick now => Some (setCurrentTime now st)
    | RotationTick =>
        if (List.length (activities st) =? 0)%nat then None
        else Some (rotate st)
    | Dismiss =>
        match render st with
        | Presence (Some _) => Some (setIsVisible false st)
        | _ => None
        end
    end
  end.

Fixpoint run (st : Component) (evs : list Event) : option Component :=
  match evs with
  | [] => Some st
  | ev :: evs' =>
      match step st ev with
      | Some st' => run st' evs'
      | None => None
      end
  end.

End Widget.

(** ** The merge, as the specification words it *)

Module MergeRule.
Import Model Fetch.

(** The records of a response that the loop reads. *)
Definition listed (r : Response ApiContributor) : list ApiContributor :=
  match r with
  | HttpOk (BodyArray items) => items
  | _ => []
  end.

(** All records of the repositories, in the order they are read. *)
Definition gathered (responses : list (Response ApiContributor))
  : list ApiContributor :=
  flat_map listed responses.

(** The records that count for login [l]: those that have this login and
    are a user's. *)
Definition counts_for (l : string) (c : ApiContributor) : bool :=
  match accepted_login c with
  | Some l' => String.eqb l l'
  | None => false
  end.

Definition records_of (l : string) (recs : list ApiContributor)
  : list ApiContributor :=
  filter (counts_for l) recs.

Definition total_contributions (recs : list ApiContributor) : Z :=
  fold_right (fun c n => api_contributions c + n) 0 recs.

(** The entry of login [l] after merging [recs]: none when no record
    counts for [l]; otherwise identity and URLs of the first such record
    and the sum of the contributions of all of them. *)
Definition merged_as (l : string) (recs : list ApiContributor)
    (entry : option Contributor) : Prop :=
  match records_of l recs with
  | [] => entry = None
  | first :: others =>
      exists e,
        entry = Some e /\
        login e = l /\
        id e = toString (api_id first) /\
        avatar_url e = api_avatar_url first /\
        html_url e = api_html_url first /\
        contributions e = total_contributions (first :: others)
  end.

(** What holds of the map after the records [recs] have been read. *)
Definition merged (recs : list ApiContributor) (m : ContributorsMap) : Prop :=
  NoDup (map fst m) /\ forall l, merged_as l recs (map_get l m).

End MergeRule.

(** ** The ranking and the activity list, as the specification words them *)

Module Ranking.
Import Model.

(** [a] may stand before [b] in the ranking. *)
Definition descending (a b : Contributor) : Prop :=
  contributions b <= contributions a.

(** Sorted by contribution count in descending order, at most 15 long. *)
Definition ranked (l : list Contributor) : Prop :=
  StronglySorted descending l /\ (List.length l <= 15)%nat.

(** One event per contributor, in the same order, stamped with the
    contributor's [lastActivity]. *)
Definition in_lockstep (cs : list Contributor)
    (acts : list ContributorActivity) : Prop :=
  List.length acts = List.length cs /\
  map contributor acts = cs /\
  Forall (fun a => timestamp a = lastActivity (contributor a)) acts.

End Ranking.

(** ** Traces of the component *)

Module Traces.
Import Random Model Fetch Widget.

(** The list of the most recent successful fetch among the events [evs],
    [acc] when there is none. *)
Fixpoint last_fetched (evs : list Event) (acc : list Contributor)
  : list Contributor :=
  match evs with
  | [] => acc
  | FetchSettles _ net w :: evs' =>
      match fetchLiveContributors net w with
      | Fetched liveContributors _ => last_fetched evs' liveContributors
      | FetchFailed _ => last_fetched evs' acc
      end
  | _ :: evs' => last_fetched evs' acc
  end.

(** A fetch cycle that fails. *)
Definition failing (f : Network * World) : Prop :=
  exists e, fetchLiveContributors (fst f) (snd f) = FetchFailed e.

(** The failures the specification names: a non-success status or a body
    that is not an array on the repository listing, or no contributor
    gathered. *)
Definition named_failure (net : Network) (w : World) : Prop :=
  (exists status, repos_response net = HttpError status) \/
  repos_response net = HttpOk BodyOther \/
  (exists repos,
     repos_response net = HttpOk (BodyArray repos) /\
     fst (collectContributors
            (map (fun repo => contributors_response net (full_name repo))
                 (firstn 8 repos)) w) = []).

(** The fetch effect runs and its call settles. *)
Definition attempt (f : Network * World) : list Event :=
  [RunFetchEffect; FetchSettles 0 (fst f) (snd f)].

(** Attempts in a row, each but the first started by the retry timer of
    the one before. *)
Fixpoint consecutive (fs : list (Network * World)) : list Event :=
  match fs with
  | [] => []
  | f :: fs' =>
      (attempt f ++
       match fs' with
       | [] => []
       | _ :: _ => RetryTimerFires 0 :: consecutive fs'
       end)%list
  end.

(** Nothing of the fetch machinery is left to happen: no effect due, no
    call pending, no timer set. *)
Definition at_rest (st : Component) : Prop :=
  effect_pending st = false /\ inFlight st = [] /\ retryTimers st = [].

End Traces.

(** ** Concrete inputs *)

Module Scenario.
Import Random Model Fetch Widget Traces.

Definition half : spec_float := S754_finite false 4503599627370496 (-53).

Definition world : World :=
  {| clock := fun n => 1700000000000 + Z.of_nat n;
     dice := fun _ => half |}.

(** The time of mount. *)
Definition start : Z := 1700000000000.

Definition user (l : string) (n : Z) (k : Z) : ApiContributor :=
  {| api_login := Some l;
     api_type := "User";
     api_id := k;
     api_avatar_url := "https://avatars.githubusercontent.com/u/" ++ toString k;
     api_contributions := n;
     api_html_url := "https://github.com/" ++ l |}.

Definition site : Repo :=
  {| name := "recode-website"; full_name := "recodehive/recode-website" |}.

(** The API answers 403 to everything. *)
Definition rate_limited : Network :=
  {| repos_response := HttpError 403;
     contributors_response := fun _ => HttpError 403 |}.

(** One repository with two contributors. *)
Definition two_contributors : Network :=
  {| repos_response := HttpOk (BodyArray [site]);
     contributors_response := fun _ =>
       HttpOk (BodyArray [user "ada" 7 11; user "grace" 3 12]) |}.

(** One repository with one contributor. *)
Definition one_contributor : Network :=
  {| repos_response := HttpOk (BodyArray [site]);
     contributors_response := fun _ =>
       HttpOk (BodyArray [user "ada" 7 11]) |}.

(** The first fetch fails, its retry succeeds, which resets [retryCount]
    and so runs the effect once more, and that fetch fails. *)
Definition recovered : list Event :=
  [ RunFetchEffect; FetchSettles 0 rate_limited world;
    RetryTimerFires 0;
    RunFetchEffect; FetchSettles 0 two_contributors world;
    RunFetchEffect; FetchSettles 0 rate_limited world ].

(** Then the user closes the card, and the retry timer fires. *)
Definition dismissed_then_retry : list Event :=
  (recovered ++ [Dismiss; RetryTimerFires 0; RunFetchEffect])%list.

(** Or the card rotates once, and the retry brings a shorter list. *)
Definition rotated_then_shorter : list Event :=
  (recovered ++
   [ RotationTick; RetryTimerFires 0;
     RunFetchEffect; FetchSettles 0 one_contributor world ])%list.

(** The state once the first attempt and its three retries have failed. *)
Definition exhausted : Component :=
  {| contributors := [];
     activities := [];
     currentActivityIndex := 0;
     isVisible := true;
     loading := false;
     currentTime := start;
     retryCount := 3;
     effectDeps := Some 3;
     inFlight := [];
     retryTimers := [] |}.

Definition down : Network * World := (rate_limited, world).

(** The state a run from mount leads to. *)
Definition state_after (evs : list Event) : Component :=
  match run (mount start) evs with
  | Some st => st
  | None => mount start
  end.

(** The state [recovered] leads to. *)
Definition after_recovered : Component :=
  match run (mount start) recovered with
  | Some st => st
  | None => mount start
  end.

End Scenario.

(** ** Labels of freshly synthesized timestamps *)

Module Labels.

(** What [formatTimeAgo] prints for the nine offsets of [timeOffsets]
    against the clock reading they were subtracted from. *)
Definition fresh_labels : list string :=
  [ "just now"; "2 minutes ago"; "5 minutes ago"; "10 minutes ago";
    "30 minutes ago"; "1 hour ago"; "2 hours ago"; "1 day ago";
    "2 days ago" ].

(** The labels of [getActionText] for the four kinds of action. *)
Definition action_labels : list string :=
  [ "Checked-in"; "Contributed"; "Starred"; "Forked" ].

End Labels.

(** ** Readings of the merged map *)

Module MergeReadings.
Import Random Model Fetch.

(** The logins of the records that count, in the order they are read. *)
Definition accepted_logins (recs : list ApiContributor) : list string :=
  flat_map (fun c => match accepted_login c with
                     | Some l => [l]
                     | None => []
                     end) recs.

(** A list without its repetitions, each element where it first occurs. *)
Definition first_seen (ls : list string) : list string :=
  rev (nodup string_dec (rev ls)).

(** The records that count, whatever their login. *)
Definition counting (recs : list ApiContributor) : list ApiContributor :=
  filter (fun c => match accepted_login c with
                   | Some _ => true
                   | None => false
                   end) recs.

(** The sum of the contribution counts the map holds. *)
Definition map_total (m : ContributorsMap) : Z :=
  fold_right (fun e n => contributions e + n) 0 (map_values m).


(** A timestamp synthesized from the clock of [w]: a reading of it minus
    one of the nine offsets. *)
Definition synthesized_from (w : World) (t : JsNum) : Prop :=
  exists j offset,
    In offset timeOffsets /\ t = Num (clock w j - offset).

(** The responses the fetch cycle reads for the repositories [repos]:
    those of the first eight. *)
Definition read_responses (net : Network) (repos : list Repo)
  : list (Response ApiContributor) :=
  map (fun repo => contributors_response net (full_name repo))
      (firstn 8 repos).

(** The comparator of line 102. *)
Definition by_contributions (a b : Contributor) : Z :=
  contributions b - contributions a.

(** The contributors of [l] whose count is [k], in the order of [l]. *)
Definition with_count (k : Z) (l : list Contributor) : list Contributor :=
  filter (fun c => contributions c =? k) l.

End MergeReadings.

(** ** Readings of the component *)

Module WidgetReadings.
Import Random Model Fetch Widget.

(** The delays a retry timer can have. *)
Definition retry_delays : list Z := [5000; 10000; 15000].

(** The number behind the "+" of the grid, 0 when it is not shown. *)
Definition more_count (c : Card) : Z :=
  match more c with
  | Some k => k
  | None => 0
  end.

(** The index selects an activity of the list. *)
Definition index_in_bounds (st : Component) : Prop :=
  0 <= currentActivityIndex st < Z.of_nat (List.length (activities st)).

(** Every draw a settling fetch cycle takes from its world is a binary64
    number in [0, 1). *)
Definition fair_event (ev : Event) : Prop :=
  match ev with
  | FetchSettles _ _ w => forall n, is_unit_draw (dice w n) = true
  | _ => True
  end.

(** The activity has a numeric timestamp and one of the four actions. *)
Definition well_formed (a : ContributorActivity) : Prop :=
  (exists t, timestamp a = Num t) /\ action a <> None.

End WidgetReadings.

(** * Properties *)

Module TimeAgoFacts.
Import TimeAgo.

Lemma counted_minute n :
  counted n "minute" =
  if n =? 1 then "1 minute ago" else toString n ++ " minutes ago".
Proof. unfold counted. destruct (n =? 1); reflexivity. Qed.

Lemma counted_hour n :
  counted n "hour" =
  if n =? 1 then "1 hour ago" else toString n ++ " hours ago".
Proof. unfold counted. destruct (n =? 1); reflexivity. Qed.

Lemma counted_day n :
  counted n "day" =
  if n =? 1 then "1 day ago" else toString n ++ " days ago".
Proof. unfold counted. destruct (n =? 1); reflexivity. Qed.

(** The code and the rule agree on every difference in seconds. *)
Lemma formatTimeAgo_rule now t :
  formatTimeAgo now (Num t) = relative_time_rule ((now - t) / 1000).
Proof.
  unfold formatTimeAgo, relative_time_rule.
  generalize ((now - t) / 1000) as d; intro d.
  rewrite counted_minute, counted_hour, counted_day.
  rewrite !Z.div_div by lia. change (60 * 60) with 3600.
  change (3600 * 24) with 86400.
  destruct (Z.ltb_spec d 60) as [H60|H60].
  - destruct (Z.leb_spec d 30); reflexivity.
  - destruct (Z.leb_spec d 30); [lia|].
    destruct (Z.ltb_spec (d / 60) 60) as [Hm|Hm];
      destruct (Z.ltb_spec d 3600) as [Hd|Hd]; try reflexivity;
      try (Z.div_mod_to_equations; lia).
    destruct (Z.ltb_spec (d / 3600) 24) as [Hh|Hh];
      destruct (Z.ltb_spec d 86400) as [He|He]; try reflexivity;
      Z.div_mod_to_equations; lia.
Qed.

(** C1: for every timestamp and current time, [formatTimeAgo] returns what
    the rule gives on [d = floor((now - timestamp) / 1000)]: "just now" up
    to 30, seconds below 60, then minutes, hours and days with singular or
    plural wording; 29 s, 45 s, 90 s, 7200 s and 90000 s give "just now",
    "45 seconds ago", "1 minute ago", "2 hours ago" and "1 day ago". *)
Theorem formatTimeAgo_exact :
  (forall now t : Z,
     formatTimeAgo now (Num t) = relative_time_rule ((now - t) / 1000)) /\
  (forall now : Z,
     formatTimeAgo now (Num (now - 29 * 1000)) = "just now" /\
     formatTimeAgo now (Num (now - 45 * 1000)) = "45 seconds ago" /\
     formatTimeAgo now (Num (now - 90 * 1000)) = "1 minute ago" /\
     formatTimeAgo now (Num (now - 7200 * 1000)) = "2 hours ago" /\
     formatTimeAgo now (Num (now - 90000 * 1000)) = "1 day ago").
Proof.
  split; [exact formatTimeAgo_rule|].
  intro now. rewrite !formatTimeAgo_rule.
  replace (now - (now - 29 * 1000)) with 29000 by lia.
  replace (now - (now - 45 * 1000)) with 45000 by lia.
  replace (now - (now - 90 * 1000)) with 90000 by lia.
  replace (now - (now - 7200 * 1000)) with 7200000 by lia.
  replace (now - (now - 90000 * 1000)) with 90000000 by lia.
  repeat split; vm_compute; reflexivity.
Qed.

(** C10: [formatTimeAgo] is a total function of the integer timestamp, and
    whenever [now - timestamp] is at most 30000 ms, a timestamp in the
    future included, the result is "just now". *)
Theorem formatTimeAgo_future now t :
  now - t <= 30000 -> formatTimeAgo now (Num t) = "just now".
Proof.
  intro H. unfold formatTimeAgo.
  assert (Hd : (now - t) / 1000 <= 30).
  { Z.div_mod_to_equations; lia. }
  destruct (Z.ltb_spec ((now - t) / 1000) 60); [|lia].
  destruct (Z.leb_spec ((now - t) / 1000) 30); [reflexivity|lia].
Qed.

Lemma formatTimeAgo_future_witness :
  1700000000000 - 1700000600000 <= 30000 /\
  formatTimeAgo 1700000000000 (Num 1700000600000) = "just now".
Proof.
  split; [lia | apply (formatTimeAgo_future 1700000000000 1700000600000); lia].
Defined.

End TimeAgoFacts.

Module MergeFacts.
Import Random Model Fetch MergeRule.

Lemma map_get_set_same k v m : map_get k (map_set k v m) = Some v.
Proof.
  induction m as [|[k' v'] m IH]; simpl.
  - now rewrite String.eqb_refl.
  - destruct (String.eqb k k') eqn:E; simpl; rewrite E; auto.
Qed.

Lemma map_get_set_other k k' v m :
  k <> k' -> map_get k (map_set k' v m) = map_get k m.
Proof.
  intro Hne. induction m as [|[k0 v0] m IH]; simpl.
  - apply String.eqb_neq in Hne. now rewrite Hne.
  - destruct (String.eqb k' k0) eqn:E; simpl.
    + apply String.eqb_eq in E; subst k0.
      apply String.eqb_neq in Hne. now rewrite Hne.
    + now rewrite IH.
Qed.

Lemma map_get_absent k m : map_get k m = None <-> ~ In k (map fst m).
Proof.
  induction m as [|[k' v'] m IH]; simpl.
  - tauto.
  - destruct (String.eqb k k') eqn:E.
    + apply String.eqb_eq in E. split; [discriminate|]. intro H. elim H. auto.
    + apply String.eqb_neq in E. rewrite IH. split; intro H.
      * intros [H'|H']; [congruence|tauto].
      * tauto.
Qed.

Lemma keys_set_present k v m :
  In k (map fst m) -> map fst (map_set k v m) = map fst m.
Proof.
  induction m as [|[k' v'] m IH]; simpl; [tauto|].
  intro H. destruct (String.eqb k k') eqn:E; simpl; [reflexivity|].
  apply String.eqb_neq in E. f_equal. apply IH.
  destruct H; [congruence|assumption].
Qed.

Lemma keys_set_absent k v m :
  ~ In k (map fst m) -> map fst (map_set k v m) = (map fst m ++ [k])%list.
Proof.
  induction m as [|[k' v'] m IH]; simpl; [reflexivity|].
  intro H. destruct (String.eqb k k') eqn:E; simpl.
  - apply String.eqb_eq in E. subst k'. tauto.
  - f_equal. apply IH. tauto.
Qed.

Lemma total_contributions_app a b :
  total_contributions (a ++ b)%list = total_contributions a + total_contributions b.
Proof.
  unfold total_contributions.
  induction a as [|c a IH]; simpl; [reflexivity|]. rewrite IH. lia.
Qed.

Lemma records_of_app l a b :
  records_of l (a ++ b)%list = (records_of l a ++ records_of l b)%list.
Proof. apply filter_app. Qed.

Lemma merged_empty : merged [] [].
Proof. split; [constructor|]. intro l. reflexivity. Qed.

Lemma merged_as_skip l recs c entry :
  counts_for l c = false ->
  merged_as l recs entry -> merged_as l (recs ++ [c])%list entry.
Proof.
  intros Hc H. unfold merged_as in *. rewrite records_of_app.
  unfold records_of at 2. simpl. rewrite Hc. now rewrite app_nil_r.
Qed.

Lemma counts_for_other l l' c :
  accepted_login c = Some l' -> l <> l' -> counts_for l c = false.
Proof.
  intros Ha Hne. unfold counts_for. rewrite Ha. now apply String.eqb_neq.
Qed.

Lemma counts_for_same l c : accepted_login c = Some l -> counts_for l c = true.
Proof. intro Ha. unfold counts_for. rewrite Ha. apply String.eqb_refl. Qed.

Lemma addContributor_merged recs m w c :
  merged recs m -> merged (recs ++ [c])%list (fst (addContributor (m, w) c)).
Proof.
  intros [Hnd Hm]. unfold addContributor.
  destruct (accepted_login c) as [l0|] eqn:Ha.
  - destruct (map_get l0 m) as [existing|] eqn:Hg.
    + simpl. split.
      * rewrite keys_set_present; [assumption|].
        destruct (in_dec string_dec l0 (map fst m)) as [?|Hn]; [assumption|].
        apply map_get_absent in Hn. congruence.
      * intro l. destruct (string_dec l l0) as [->|Hne].
        -- rewrite map_get_set_same. specialize (Hm l0).
           unfold merged_as in *. rewrite records_of_app.
           unfold records_of at 2. simpl. rewrite (counts_for_same _ _ Ha).
           rewrite Hg in Hm.
           destruct (records_of l0 recs) as [|first others]; [discriminate|].
           destruct Hm as (e & He & Hl & Hi & Hav & Hh & Hc).
           injection He as <-. simpl.
           eexists; split; [reflexivity|]. simpl.
           repeat split; try assumption.
           rewrite Hc.
           change (api_contributions first +
                   fold_right (fun c n => api_contributions c + n) 0
                     (others ++ [c])%list)
             with (api_contributions first + total_contributions (others ++ [c])%list).
           rewrite total_contributions_app. simpl. unfold total_contributions.
           simpl. lia.
        -- rewrite map_get_set_other by assumption.
           apply merged_as_skip; [|apply Hm].
           eapply counts_for_other; eassumption.
    + destruct (generateRandomTimestamp w) as [t w']. simpl. split.
      * rewrite keys_set_absent by (now apply map_get_absent).
        apply NoDup_app; [assumption|constructor; [simpl; tauto|constructor]|].
        intros k Hk [<-|[]]. apply map_get_absent in Hg. tauto.
      * intro l. destruct (string_dec l l0) as [->|Hne].
        -- rewrite map_get_set_same. specialize (Hm l0).
           unfold merged_as in *. rewrite records_of_app.
           unfold records_of at 2. simpl. rewrite (counts_for_same _ _ Ha).
           rewrite Hg in Hm.
           destruct (records_of l0 recs) as [|first others].
           ++ simpl. eexists; split; [reflexivity|]. simpl.
              repeat split. lia.
           ++ destruct Hm as (e & He & _). discriminate.
        -- rewrite map_get_set_other by assumption.
           apply merged_as_skip; [|apply Hm].
           eapply counts_for_other; eassumption.
  - simpl. split; [assumption|]. intro l.
    apply merged_as_skip; [|apply Hm].
    unfold counts_for. now rewrite Ha.
Qed.

Lemma forEach_merged cs : forall recs m w,
  merged recs m ->
  merged (recs ++ cs)%list (fst (fold_left addContributor cs (m, w))).
Proof.
  induction cs as [|c cs IH]; intros recs m w H; cbn [fold_left].
  - now rewrite app_nil_r.
  - pose proof (addContributor_merged recs m w c H) as H1.
    destruct (addContributor (m, w) c) as [m1 w1]. simpl in H1.
    replace (recs ++ c :: cs)%list with ((recs ++ [c]) ++ cs)%list
      by (now rewrite <- app_assoc).
    now apply IH.
Qed.

Lemma addRepo_merged recs m w r :
  merged recs m -> merged (recs ++ listed r)%list (fst (addRepo (m, w) r)).
Proof.
  intro H. destruct r as [| |[| |items]]; simpl;
    try (now rewrite app_nil_r).
  now apply forEach_merged.
Qed.

Lemma repos_merged rs : forall recs m w,
  merged recs m ->
  merged (recs ++ gathered rs)%list (fst (fold_left addRepo rs (m, w))).
Proof.
  induction rs as [|r rs IH]; intros recs m w H;
    cbn [fold_left gathered flat_map].
  - now rewrite app_nil_r.
  - pose proof (addRepo_merged recs m w r H) as H1.
    destruct (addRepo (m, w) r) as [m1 w1]. cbn [fst] in H1.
    rewrite app_assoc. now apply IH.
Qed.

Lemma records_of_nonempty l recs :
  records_of l recs <> [] <->
  exists c, In c recs /\ accepted_login c = Some l.
Proof.
  unfold records_of. split.
  - intro H. destruct (filter (counts_for l) recs) as [|c rest] eqn:E;
      [congruence|].
    assert (Hin : In c (filter (counts_for l) recs)) by (rewrite E; now left).
    apply filter_In in Hin. destruct Hin as [Hin Hc]. exists c. split; auto.
    unfold counts_for in Hc. destruct (accepted_login c) as [l'|];
      [|discriminate].
    apply String.eqb_eq in Hc. now subst.
  - intros (c & Hin & Ha) E.
    assert (Hc : In c (filter (counts_for l) recs)).
    { apply filter_In. split; [assumption|now apply counts_for_same]. }
    rewrite E in Hc. destruct Hc.
Qed.

(** C2: whatever the repositories return, the merge leaves one entry per
    login; the entry of a login carries the identifier, avatar URL and
    profile URL of the first record read with that login and the sum of
    the contributions of all of them; and only records that have a login
    and are of type 'User' count, so a login is a key exactly when such a
    record carries it. *)
Theorem merge_by_login (responses : list (Response ApiContributor))
    (w : World) :
  let m := fst (collectContributors responses w) in
  NoDup (map fst m) /\
  (forall l, merged_as l (gathered responses) (map_get l m)) /\
  (forall l, In l (map fst m) <->
             exists c, In c (gathered responses) /\
                       api_login c = Some l /\ l <> "" /\
                       api_type c = "User").
Proof.
  cbv zeta.
  pose proof (repos_merged responses [] [] w merged_empty) as H.
  change ([] ++ gathered responses)%list with (gathered responses) in H.
  change (fold_left addRepo responses ([], w))
    with (collectContributors responses w) in H.
  revert H. generalize (fst (collectContributors responses w)) as m.
  intros m [Hnd Hm].
  split; [assumption|]. split; [assumption|].
  intro l. specialize (Hm l). unfold merged_as in Hm.
  assert (Hkey : In l (map fst m) <-> records_of l (gathered responses) <> []).
  { destruct (records_of l (gathered responses)) as [|first others].
    - apply map_get_absent in Hm. split; [tauto|]. intro H. now elim H.
    - destruct Hm as (e & He & _). split; [discriminate|]. intros _.
      destruct (in_dec string_dec l (map fst m)) as [?|Hn]; [assumption|].
      apply map_get_absent in Hn. congruence. }
  rewrite Hkey, records_of_nonempty.
  split; intros (c & Hin & Hc); exists c; (split; [assumption|]).
  - unfold accepted_login in Hc. destruct (api_login c) as [l'|]; [|discriminate].
    destruct (String.eqb l' "") eqn:E1; [discriminate|].
    destruct (String.eqb (api_type c) "User") eqn:E2; [|discriminate].
    injection Hc as ->. apply String.eqb_neq in E1. apply String.eqb_eq in E2.
    auto.
  - destruct Hc as (Hl & Hne & Ht). unfold accepted_login. rewrite Hl.
    apply String.eqb_neq in Hne. rewrite Hne.
    rewrite Ht. reflexivity.
Qed.

End MergeFacts.

Module SortFacts.
Import Model Fetch Ranking.

Section StableInsertion.
Context {A : Type}.
Variable cmp : A -> A -> Z.
Variable before : A -> A -> Prop.
Hypothesis before_trans : forall a b c, before a b -> before b c -> before a c.
Hypothesis cmp_le : forall a b, cmp a b <= 0 -> before a b.
Hypothesis cmp_gt : forall a b, 0 < cmp a b -> before b a.

Lemma insert_by_perm x l : Permutation (insert_by cmp x l) (x :: l).
Proof.
  induction l as [|y l IH]; simpl; [apply Permutation_refl|].
  destruct (cmp x y <=? 0); [apply Permutation_refl|].
  eapply perm_trans; [apply perm_skip, IH|apply perm_swap].
Qed.

Lemma sort_by_perm l : Permutation (sort_by cmp l) l.
Proof.
  induction l as [|x l IH]; simpl; [constructor|].
  eapply perm_trans; [apply insert_by_perm|]. now apply perm_skip.
Qed.

Lemma insert_by_sorted x l :
  StronglySorted before l -> StronglySorted before (insert_by cmp x l).
Proof.
  induction 1 as [|y l Hl IH Hy]; simpl.
  - repeat constructor.
  - destruct (Z.leb_spec (cmp x y) 0) as [Hc|Hc].
    + constructor; [now constructor|].
      constructor; [now apply cmp_le|].
      eapply Forall_impl; [|exact Hy]. intros z Hz.
      eapply before_trans; [apply cmp_le|]; eassumption.
    + constructor; [assumption|].
      eapply Permutation_Forall;
        [apply Permutation_sym, insert_by_perm|].
      constructor; [now apply cmp_gt|assumption].
Qed.

Lemma sort_by_sorted l : StronglySorted before (sort_by cmp l).
Proof.
  induction l as [|x l IH]; simpl; [constructor|].
  now apply insert_by_sorted.
Qed.

Lemma firstn_sorted n : forall l,
  StronglySorted before l -> StronglySorted before (firstn n l).
Proof.
  induction n as [|n IH]; intros l H; simpl; [constructor|].
  destruct H as [|x l Hl Hx]; [constructor|].
  constructor; [now apply IH|].
  apply Forall_forall. intros y Hy.
  rewrite Forall_forall in Hx. apply Hx.
  rewrite <- (firstn_skipn n l). apply in_or_app. now left.
Qed.
End StableInsertion.

Lemma descending_trans a b c :
  descending a b -> descending b c -> descending a c.
Proof. unfold descending. lia. Qed.

(** Sorting with the comparator of line 102 and keeping 15 gives a
    ranking. *)
Lemma top15_ranked (l : list Contributor) :
  ranked (firstn 15 (sort_by (fun a b => contributions b - contributions a) l)).
Proof.
  split.
  - apply firstn_sorted.
    apply sort_by_sorted.
    + exact descending_trans.
    + unfold descending. intros; lia.
    + unfold descending. intros; lia.
  - apply firstn_le_length.
Qed.

Lemma synthesizeActivities_lockstep l : forall w,
  in_lockstep l (fst (synthesizeActivities l w)).
Proof.
  induction l as [|c l IH]; intro w; cbn [synthesizeActivities].
  - repeat split. constructor.
  - destruct (getRandomAction w) as [a w1].
    specialize (IH w1). destruct (synthesizeActivities l w1) as [rest w2].
    destruct IH as (Hlen & Hmap & Hts). simpl in *.
    repeat split; simpl; [congruence|congruence|].
    constructor; [reflexivity|assumption].
Qed.

(** What a successful fetch cycle hands to the state. *)
Lemma fetched_ranked net w cs acts :
  fetchLiveContributors net w = Fetched cs acts ->
  ranked cs /\ in_lockstep cs acts /\ cs <> [].
Proof.
  unfold fetchLiveContributors.
  destruct (repos_response net) as [| |[| |repos]]; try discriminate.
  destruct (collectContributors _ w) as [m w1].
  set (live := firstn 15 _).
  destruct (Nat.ltb_spec 0 (List.length live)) as [Hpos|]; [|discriminate].
  intro H. injection H as <- <-.
  split; [apply top15_ranked|]. split; [apply synthesizeActivities_lockstep|].
  intro E. rewrite E in Hpos. simpl in Hpos. lia.
Qed.

End SortFacts.

Module WidgetFacts.
Import Random Model Fetch TimeAgo Ranking Widget Traces Scenario SortFacts.

(** *** What a step does to the two lists *)

Lemma step_lists st ev st' :
  step st ev = Some st' ->
  match ev with
  | FetchSettles _ net w =>
      match fetchLiveContributors net w with
      | Fetched cs acts => contributors st' = cs /\ activities st' = acts
      | FetchFailed _ =>
          contributors st' = contributors st /\ activities st' = activities st
      end
  | _ => contributors st' = contributors st /\ activities st' = activities st
  end.
Proof.
  destruct ev; unfold step; destruct (effect_pending st); try discriminate.
  - intro H; injection H as <-; auto.
  - destruct (nth_error (inFlight st) i); [|discriminate].
    intro H; injection H as <-. unfold settle.
    destruct (fetchLiveContributors net w); auto.
  - destruct (nth_error (retryTimers st) i); [|discriminate].
    intro H; injection H as <-; auto.
  - intro H; injection H as <-; auto.
  - intro H; injection H as <-; auto.
  - destruct (List.length (activities st) =? 0)%nat; [discriminate|].
    intro H; injection H as <-; auto.
  - destruct (render st) as [| |[c|]|]; try discriminate.
    intro H; injection H as <-; auto.
Qed.

Lemma run_lists evs : forall st0 st,
  run st0 evs = Some st ->
  contributors st = last_fetched evs (contributors st0) /\
  (ranked (contributors st0) -> ranked (contributors st)) /\
  (in_lockstep (contributors st0) (activities st0) ->
   in_lockstep (contributors st) (activities st)).
Proof.
  induction evs as [|ev evs IH]; intros st0 st; cbn [run last_fetched].
  - intro H; injection H as <-; auto.
  - destruct (step st0 ev) as [st1|] eqn:Hs; [|discriminate].
    intro Hr. apply IH in Hr. destruct Hr as (Hc & Hrk & Hls).
    apply step_lists in Hs.
    destruct ev; try (destruct Hs as [E1 E2]; rewrite E1, E2 in *; now auto).
    destruct (fetchLiveContributors net w) as [cs acts|e] eqn:Hf.
    + destruct Hs as [E1 E2]. rewrite E1, E2 in *.
      apply fetched_ranked in Hf. destruct Hf as (Hr & Hl & _).
      split; [assumption|]. split; auto.
    + destruct Hs as [E1 E2]. rewrite E1, E2 in *. auto.
Qed.

(** C6: at every point of a run from mount the stored contributor list is
    the list of the most recent successful fetch cycle, and it is sorted
    by contribution count in descending order and at most 15 long. *)
Theorem stored_contributors_ranked (now : Z) (evs : list Event)
    (st : Component) :
  run (mount now) evs = Some st ->
  contributors st = last_fetched evs [] /\
  StronglySorted descending (contributors st) /\
  (List.length (contributors st) <= 15)%nat.
Proof.
  intro H. apply run_lists in H. destruct H as (Hc & Hrk & _).
  split; [exact Hc|]. apply Hrk. split; [constructor|simpl; lia].
Qed.

Lemma stored_contributors_ranked_witness :
  run (mount start) recovered = Some after_recovered /\
  List.length (contributors after_recovered) = 2%nat /\
  contributors after_recovered = last_fetched recovered [] /\
  StronglySorted descending (contributors after_recovered) /\
  (List.length (contributors after_recovered) <= 15)%nat.
Proof.
  split; [vm_compute; reflexivity|]. split; [vm_compute; reflexivity|].
  apply (stored_contributors_ranked start recovered after_recovered).
  vm_compute; reflexivity.
Defined.

(** C7: at every point of a run from mount the activity list is as long
    as the contributor list of the most recent successful fetch cycle and
    holds one event per contributor of it, in the same order, whose
    timestamp is that contributor's [lastActivity]. *)
Theorem activities_in_lockstep (now : Z) (evs : list Event)
    (st : Component) :
  run (mount now) evs = Some st ->
  List.length (activities st) = List.length (last_fetched evs []) /\
  map contributor (activities st) = last_fetched evs [] /\
  Forall (fun a => timestamp a = lastActivity (contributor a)) (activities st).
Proof.
  intro H. apply run_lists in H. destruct H as (Hc & _ & Hls).
  simpl in Hc. rewrite <- Hc. apply Hls. repeat split. constructor.
Qed.

Lemma activities_in_lockstep_witness :
  run (mount start) recovered = Some after_recovered /\
  List.length (activities after_recovered) = 2%nat /\
  List.length (activities after_recovered) =
    List.length (last_fetched recovered []) /\
  map contributor (activities after_recovered) = last_fetched recovered [] /\
  Forall (fun a => timestamp a = lastActivity (contributor a))
         (activities after_recovered).
Proof.
  split; [vm_compute; reflexivity|]. split; [vm_compute; reflexivity|].
  apply (activities_in_lockstep start recovered after_recovered).
  vm_compute; reflexivity.
Defined.

(** *** Rendering *)

(** C8: when the component is not loading and the activity list is empty,
    the render function returns [null]; it reads no activity and does not
    throw. *)
Theorem nothing_without_activities (st : Component) :
  loading st = false -> activities st = [] -> render st = Null.
Proof.
  intros Hl Ha. unfold render. rewrite Hl, Ha. reflexivity.
Qed.

Lemma nothing_without_activities_witness :
  loading exhausted = false /\ activities exhausted = [] /\
  render exhausted = Null.
Proof.
  split; [reflexivity|]. split; [reflexivity|].
  apply (nothing_without_activities exhausted); reflexivity.
Defined.

(** The visible flag is never set again. *)
Lemma dismissed_stays st ev st' :
  isVisible st = false -> step st ev = Some st' -> isVisible st' = false.
Proof.
  intro Hv. destruct ev; unfold step; destruct (effect_pending st);
    try discriminate.
  - intro H; injection H as <-; auto.
  - destruct (nth_error (inFlight st) i); [|discriminate].
    intro H; injection H as <-. unfold settle.
    destruct (fetchLiveContributors net w); auto.
  - destruct (nth_error (retryTimers st) i); [|discriminate].
    intro H; injection H as <-; auto.
  - intro H; injection H as <-; auto.
  - intro H; injection H as <-; auto.
  - destruct (List.length (activities st) =? 0)%nat; [discriminate|].
    intro H; injection H as <-; auto.
  - destruct (render st) as [| |[c|]|]; try discriminate.
    intro H; injection H as <-; auto.
Qed.

(** A dismissed component that is not loading renders nothing. *)
Lemma dismissed_idle_renders_nothing st :
  isVisible st = false -> loading st = false ->
  renders_nothing (render st) = true.
Proof.
  intros Hv Hl. unfold render. rewrite Hv, Hl.
  destruct (List.length (activities st) =? 0)%nat; reflexivity.
Qed.

(** C4, at the failing run: the card is dismissed while a retry timer is
    pending; when the timer fires the fetch effect sets [loading], and the
    render function returns the loading placeholder although [isVisible]
    is false, because line 228 returns before line 251 reads the flag. *)
Theorem dismissed_card_shows_placeholder :
  exists before st,
    run (mount start) (recovered ++ [Dismiss])%list = Some before /\
    isVisible before = false /\
    renders_nothing (render before) = true /\
    run before [RetryTimerFires 0; RunFetchEffect] = Some st /\
    isVisible st = false /\
    render st = LoadingPlaceholder /\
    renders_nothing (render st) = false.
Proof.
  destruct (run (mount start) (recovered ++ [Dismiss])%list) as [b|] eqn:Eb;
    [|vm_compute in Eb; discriminate].
  destruct (run b [RetryTimerFires 0; RunFetchEffect]) as [st|] eqn:Es;
    [|vm_compute in Eb; injection Eb as <-; vm_compute in Es; discriminate].
  exists b, st. vm_compute in Eb. injection Eb as <-.
  vm_compute in Es. injection Es as <-.
  repeat split; reflexivity.
Qed.

(** *** The rotation index *)

(** A tick leaves the index inside the list it was taken modulo. *)
Lemma rotate_in_bounds st :
  0 <= currentActivityIndex st -> activities st <> [] ->
  0 <= currentActivityIndex (rotate st) <
  Z.of_nat (List.length (activities (rotate st))).
Proof.
  intros Hi Hne. unfold rotate. simpl.
  assert (0 < Z.of_nat (List.length (activities st))).
  { destruct (activities st); [congruence|simpl; lia]. }
  apply Z.rem_bound_pos; lia.
Qed.

(** From inside the list a tick moves the index one further, and from the
    last position to the first. *)
Lemma rotate_cycles st :
  0 <= currentActivityIndex st <
  Z.of_nat (List.length (activities st)) ->
  currentActivityIndex (rotate st) =
  if currentActivityIndex st + 1 =? Z.of_nat (List.length (activities st))
  then 0 else currentActivityIndex st + 1.
Proof.
  intro Hi. unfold rotate. simpl.
  destruct (Z.eqb_spec (currentActivityIndex st + 1)
              (Z.of_nat (List.length (activities st)))) as [E|E].
  - rewrite E. apply Z.rem_same. lia.
  - apply Z.rem_small. lia.
Qed.

(** C5, at the failing run: with two activities the index is ticked to 1;
    the next successful fetch stores a list of one activity and leaves the
    index as it is, so line 247 reads [activities[1]] of a list of length
    1, which is [undefined], and the card's first use of it throws. *)
Theorem rotation_index_out_of_bounds :
  exists st,
    run (mount start) rotated_then_shorter = Some st /\
    loading st = false /\
    List.length (activities st) = 1%nat /\
    currentActivityIndex st = 1 /\
    array_get (activities st) (Some (currentActivityIndex st)) = None /\
    render st = TypeError.
Proof.
  destruct (run (mount start) rotated_then_shorter) as [st|] eqn:E;
    [|vm_compute in E; discriminate].
  exists st. vm_compute in E. injection E as <-.
  repeat split; reflexivity.
Qed.

End WidgetFacts.

Module RetryFacts.
Import Random Model Fetch Widget Traces Scenario.

Lemma named_failure_fails net w : named_failure net w -> failing (net, w).
Proof.
  unfold failing, fetchLiveContributors. simpl.
  intros [[status H]|[H|(repos & H & Hm)]]; rewrite H.
  - now exists (GitHubApiError status).
  - now exists InvalidReposResponse.
  - destruct (collectContributors _ w) as [m w1]. simpl in Hm. subst m.
    now exists NoContributorsFound.
Qed.

Lemma settle_failed_timers i captured e st :
  retryTimers (settle i captured (FetchFailed e) st) =
  (retryTimers st ++
   if captured <? 3 then [5000 * (captured + 1)] else [])%list.
Proof.
  unfold settle, retryDelay. simpl. now destruct (captured <? 3).
Qed.

(** The state after a failed attempt started in [st]. *)
Lemma run_attempt_failed st f rest :
  effect_pending st = true -> inFlight st = [] -> failing f ->
  run st (attempt f ++ rest) =
  run (settle 0 (retryCount st) (FetchFailed Rejected) (runFetchEffect st))
      rest.
Proof.
  intros Hp Hi [e He]. unfold attempt. cbn [app run].
  unfold step at 1. rewrite Hp. cbn [run].
  assert (Hq : effect_pending (runFetchEffect st) = false).
  { unfold effect_pending, runFetchEffect. simpl. now rewrite Z.eqb_refl. }
  unfold step at 1. rewrite Hq.
  cbn [inFlight runFetchEffect]. rewrite Hi. cbn [app nth_error].
  rewrite He. reflexivity.
Qed.

Lemma effect_pending_after_timer st :
  effect_pending st = false -> effect_pending (fireRetryTimer 0 st) = true.
Proof.
  unfold effect_pending, fireRetryTimer. simpl.
  destruct (effectDeps st) as [d|]; [|discriminate].
  destruct (Z.eqb_spec d (retryCount st)); [|discriminate]. intros _.
  destruct (Z.eqb_spec d (retryCount st + 1)); [lia|reflexivity].
Qed.

(** The state after the retry timer of [st] fired and the attempt it
    started failed. *)
Lemma run_retry_failed st f rest delay :
  effect_pending st = false -> inFlight st = [] ->
  retryTimers st = [delay] -> failing f ->
  run st (RetryTimerFires 0 :: attempt f ++ rest) =
  run (settle 0 (retryCount st + 1) (FetchFailed Rejected)
         (runFetchEffect (fireRetryTimer 0 st)))
      rest.
Proof.
  intros Hp Hi Ht Hf. cbn [run]. unfold step at 1. rewrite Hp, Ht.
  cbn [nth_error].
  rewrite run_attempt_failed;
    [reflexivity|now apply effect_pending_after_timer|exact Hi|exact Hf].
Qed.

(** C3, as the code has it: each of the failures the specification names
    is a failed fetch; a failed fetch sets exactly one retry timer, of
    delay 5000 ms times its retry count plus one, when the retry count it
    closed over is below 3, and none otherwise; so of consecutive failures
    from mount the first, second and third set a timer of 5000, 10000 and
    15000 ms, and the fourth, the failure of the third retry, sets none
    and leaves nothing of the fetch machinery to happen. *)
Theorem retry_policy :
  (forall net w, named_failure net w -> failing (net, w)) /\
  (forall i captured e st,
     retryTimers (settle i captured (FetchFailed e) st) =
     (retryTimers st ++
      if captured <? 3 then [5000 * (captured + 1)] else [])%list) /\
  (forall now fs,
     Forall failing fs -> (1 <= List.length fs <= 4)%nat ->
     exists st,
       run (mount now) (consecutive fs) = Some st /\
       retryCount st = Z.of_nat (List.length fs) - 1 /\
       retryTimers st =
         (if (List.length fs <? 4)%nat
          then [5000 * Z.of_nat (List.length fs)] else []) /\
       ((List.length fs = 4)%nat -> at_rest st)).
Proof.
  split; [exact named_failure_fails|]. split; [exact settle_failed_timers|].
  intros now fs Hf Hlen.
  destruct fs as [|f1 [|f2 [|f3 [|f4 [|f5 fs]]]]]; simpl in Hlen; try lia;
    repeat match goal with
           | H : Forall _ (_ :: _) |- _ => inversion_clear H
           end;
    eexists; cbn [consecutive];
    (rewrite run_attempt_failed by (assumption || reflexivity));
    repeat (erewrite run_retry_failed by (assumption || reflexivity));
    cbn [run List.length];
    (split; [reflexivity|]); (split; [reflexivity|]);
    (split; [reflexivity|]).
  all: try (intro; discriminate).
  intros _. repeat split.
Qed.

Lemma down_failing : failing down.
Proof. exists (GitHubApiError 403). reflexivity. Qed.

Lemma retry_policy_witness :
  Forall failing [down; down; down; down] /\
  (1 <= List.length [down; down; down; down] <= 4)%nat /\
  exists st,
    run (mount start) (consecutive [down; down; down; down]) = Some st /\
    retryCount st = Z.of_nat (List.length [down; down; down; down]) - 1 /\
    retryTimers st =
      (if (List.length [down; down; down; down] <? 4)%nat
       then [5000 * Z.of_nat (List.length [down; down; down; down])]
       else []) /\
    ((List.length [down; down; down; down] = 4)%nat -> at_rest st).
Proof.
  assert (Hf : Forall failing [down; down; down; down])
    by (repeat constructor; exact down_failing).
  split; [exact Hf|]. split; [simpl; lia|].
  apply (proj2 (proj2 retry_policy) start [down; down; down; down]);
    [exact Hf|simpl; lia].
Defined.

(** C3 as the specification words it fails: after three consecutive
    failures from mount a retry is still scheduled, of delay 15000 ms. *)
Lemma third_failure_still_retries :
  ~ (forall now fs st,
       Forall failing fs -> List.length fs = 3%nat ->
       run (mount now) (consecutive fs) = Some st ->
       retryTimers st = []).
Proof.
  intro H.
  assert (E : exists st,
             run (mount start) (consecutive [down; down; down]) = Some st /\
             retryTimers st = [15000])
    by (eexists; split; vm_compute; reflexivity).
  destruct E as (st & Hrun & Ht).
  rewrite (H start [down; down; down] st) in Ht;
    [discriminate| |reflexivity|exact Hrun].
  repeat constructor; exact down_failing.
Qed.

End RetryFacts.

(** ** Binary64 rounding of a scaled draw *)

Module RandomFacts.
Import Random Model TimeAgo TimeAgoFacts Labels.

Lemma digits2_pos_bounds p :
  2 ^ (Zpos (digits2_pos p) - 1) <= Zpos p < 2 ^ Zpos (digits2_pos p).
Proof.
  induction p as [p IH|p IH|]; cbn [digits2_pos].
  - rewrite Pos2Z.inj_succ.
    replace (Z.succ (Zpos (digits2_pos p)) - 1)
      with (Z.succ (Zpos (digits2_pos p) - 1)) by lia.
    rewrite !Z.pow_succ_r by lia. lia.
  - rewrite Pos2Z.inj_succ.
    replace (Z.succ (Zpos (digits2_pos p)) - 1)
      with (Z.succ (Zpos (digits2_pos p) - 1)) by lia.
    rewrite !Z.pow_succ_r by lia. lia.
  - simpl. lia.
Qed.

Lemma digits_upper k m : 0 <= k -> 0 <= m < 2 ^ k -> Zdigits2 m <= k.
Proof.
  intros Hk [H0 Hm]. destruct m as [|p|p]; simpl; [lia| |lia].
  pose proof (digits2_pos_bounds p) as [Hlo _].
  apply Z.lt_succ_r. replace (Z.succ k) with (k + 1) by lia.
  assert (2 ^ (Zpos (digits2_pos p) - 1) < 2 ^ k) by lia.
  apply Z.pow_lt_mono_r_iff in H; lia.
Qed.

Lemma shr_1_spec mrs :
  0 <= shr_m mrs ->
  shr_m (shr_1 mrs) = shr_m mrs / 2 /\ shr_r (shr_1 mrs) = Z.odd (shr_m mrs).
Proof.
  destruct mrs as [m r s]. simpl. intro Hm.
  rewrite <- Z.div2_div.
  destruct m as [|[p|p|]|p]; try lia; simpl; auto.
Qed.

Lemma iter_shr_1 p : forall mrs,
  0 <= shr_m mrs ->
  shr_m (iter_pos shr_1 p mrs) = shr_m mrs / 2 ^ Zpos p /\
  shr_r (iter_pos shr_1 p mrs) = Z.odd (shr_m mrs / 2 ^ (Zpos p - 1)).
Proof.
  assert (Hdiv : forall a i j, 0 <= i -> 0 <= j -> a / 2 ^ i / 2 ^ j = a / 2 ^ (i + j)).
  { intros a i j Hi Hj. rewrite Z.div_div
      by first [apply Z.pow_nonzero; lia | apply Z.pow_pos_nonneg; lia].
    now rewrite <- Z.pow_add_r. }
  induction p as [p IH|p IH|]; intros mrs Hm; cbn [iter_pos].
  - destruct (shr_1_spec mrs Hm) as [E1 _].
    assert (H1 : 0 <= shr_m (shr_1 mrs)) by (rewrite E1; apply Z.div_pos; lia).
    destruct (IH _ H1) as [E2 _].
    assert (H2 : 0 <= shr_m (iter_pos shr_1 p (shr_1 mrs))).
    { rewrite E2. apply Z.div_pos; [lia|apply Z.pow_pos_nonneg; lia]. }
    destruct (IH _ H2) as [E3 E4].
    rewrite E3, E4, E2, E1.
    change (shr_m mrs / 2) with (shr_m mrs / 2 ^ 1).
    rewrite !Hdiv by lia.
    split; do 2 f_equal; try f_equal; lia.
  - destruct (IH _ Hm) as [E2 _].
    assert (H2 : 0 <= shr_m (iter_pos shr_1 p mrs)).
    { rewrite E2. apply Z.div_pos; [lia|apply Z.pow_pos_nonneg; lia]. }
    destruct (IH _ H2) as [E3 E4].
    rewrite E3, E4, E2. rewrite !Hdiv by lia.
    split; do 2 f_equal; try f_equal; lia.
  - destruct (shr_1_spec mrs Hm) as [E1 E2]. rewrite E1, E2.
    split; [reflexivity|]. simpl. now rewrite Z.div_1_r.
Qed.

Lemma round_nearest_even_bound mrs :
  0 <= shr_m mrs ->
  0 <= round_nearest_even (shr_m mrs) (loc_of_shr_record mrs)
    <= shr_m mrs + (if shr_r mrs then 1 else 0).
Proof.
  destruct mrs as [m [|] [|]]; simpl; intro Hm;
    try destruct (Z.even m); lia.
Qed.

Lemma floor_of_result mr e :
  0 <= mr -> e <= 0 ->
  Math_floor
    match mr with
    | 0 => S754_zero false
    | Zpos m =>
        if e <=? emax - prec then S754_finite false m e
        else S754_infinity false
    | Zneg _ => S754_nan
    end = Some (mr / 2 ^ (- e)).
Proof.
  intros Hm He. destruct mr as [|m|m]; [reflexivity| |lia].
  replace (e <=? emax - prec) with true
    by (symmetry; apply Z.leb_le; unfold emax, prec; lia).
  unfold Math_floor, cond_Zopp.
  destruct (Z.leb_spec 0 e); [|reflexivity].
  replace e with 0 by lia. change (2 ^ (- 0)) with 1. change (2 ^ 0) with 1.
  now rewrite Z.div_1_r, Z.mul_1_r.
Qed.

Lemma finish_below m2 c L :
  0 <= c -> 0 < L <= 2 ^ 53 -> 0 <= m2 < L * 2 ^ c ->
  forall mrs e,
    shr_fexp prec emax m2 (- c) loc_Exact = (mrs, e) ->
    exists i,
      Math_floor
        match shr_m mrs with
        | 0 => S754_zero false
        | Zpos m =>
            if e <=? emax - prec then S754_finite false m e
            else S754_infinity false
        | Zneg _ => S754_nan
        end = Some i /\ 0 <= i < L.
Proof.
  intros Hc HL Hm mrs e.
  assert (Hpow : 0 < 2 ^ c) by (apply Z.pow_pos_nonneg; lia).
  assert (Hfloor : 0 <= m2 / 2 ^ c < L).
  { split; [apply Z.div_pos; lia|]. apply Z.div_lt_upper_bound; lia. }
  assert (Hdig : Zdigits2 m2 <= 53 + c).
  { apply digits_upper; [lia|]. split; [lia|].
    rewrite Z.pow_add_r by lia. nia. }
  unfold shr_fexp, shr, shr_record_of_loc.
  destruct (fexp prec emax (Zdigits2 m2 + - c) - - c) as [|p|p] eqn:Hn;
    intro H; injection H as <- <-.
  - rewrite floor_of_result by (simpl; lia).
    rewrite Z.opp_involutive. eauto.
  - unfold fexp, SpecFloat.emin, prec, emax in Hn.
    destruct (iter_shr_1 p {| shr_m := m2; shr_r := false; shr_s := false |})
      as [Em _]; [simpl; lia|].
    cbn [shr_m] in Em.
    assert (H0 : 0 <= m2 / 2 ^ Zpos p).
    { apply Z.div_pos; [lia|apply Z.pow_pos_nonneg; lia]. }
    rewrite floor_of_result by (rewrite ?Em; lia).
    rewrite Em. eexists; split; [reflexivity|].
    rewrite Z.div_div
      by first [apply Z.pow_nonzero; lia | apply Z.pow_pos_nonneg; lia].
    rewrite <- Z.pow_add_r by lia.
    replace (Zpos p + - (- c + Zpos p)) with c by lia. exact Hfloor.
  - rewrite floor_of_result by (simpl; lia).
    rewrite Z.opp_involutive. eauto.
Qed.

Lemma half_up u : 0 <= u -> u / 2 + (if Z.odd u then 1 else 0) = (u + 1) / 2.
Proof.
  intro Hu. rewrite (Zodd_mod u).
  destruct (Z.eqb_spec (u mod 2) 1); Z.div_mod_to_equations; lia.
Qed.

Lemma first_round m e my ey L :
  -1074 <= e -> e <= -1 -> Zpos m < 2 ^ (- e) -> Zpos m < 2 ^ 53 ->
  Zpos my = L * 2 ^ (- ey) -> -52 <= ey <= 0 -> 2 ^ 52 <= Zpos my < 2 ^ 53 ->
  forall mrs' e',
    shr_fexp prec emax (Zpos (m * my)) (e + ey) loc_Exact = (mrs', e') ->
    exists c,
      0 <= c /\ e' = - c /\
      0 <= round_nearest_even (shr_m mrs') (loc_of_shr_record mrs')
        < L * 2 ^ c.
Proof.
  intros He1 He2 Hm Hm53 Hmy Hey Hmy53 mrs' e'.
  set (a := - e) in *. set (b := - ey) in *.
  assert (Ha : 1 <= a <= 1074) by (unfold a; lia).
  assert (Hb : 0 <= b <= 52) by (unfold b; lia).
  assert (H2a : 0 < 2 ^ a) by (apply Z.pow_pos_nonneg; lia).
  assert (H2b : 0 < 2 ^ b) by (apply Z.pow_pos_nonneg; lia).
  assert (HL : 0 < L) by nia.
  pose proof (digits2_pos_bounds (m * my)) as [HDlo HDhi].
  set (D := Zpos (digits2_pos (m * my))) in *.
  assert (HD1 : 1 <= D) by (unfold D; lia).
  rewrite Pos2Z.inj_mul in HDlo, HDhi.
  (* the exact product, below [my * 2 ^ a] by at least [my] *)
  assert (Hprod : Zpos m * Zpos my <= Zpos my * 2 ^ a - Zpos my) by nia.
  assert (HD : D <= a + 53).
  { assert (H : 2 ^ (D - 1) < 2 ^ (a + 53)).
    { rewrite Z.pow_add_r by lia. nia. }
    apply Z.pow_lt_mono_r_iff in H; lia. }
  unfold shr_fexp, shr, shr_record_of_loc.
  change (Zdigits2 (Zpos (m * my))) with D.
  destruct (fexp prec emax (D + (e + ey)) - (e + ey)) as [|p|p] eqn:Hn;
    unfold fexp, SpecFloat.emin, prec, emax in Hn;
    intro H; injection H as <- <-.
  - exists (a + b). split; [lia|]. split; [unfold a, b; lia|].
    cbn [shr_m loc_of_shr_record round_nearest_even].
    rewrite Pos2Z.inj_mul. split; [lia|].
    rewrite Z.pow_add_r by lia. nia.
  - exists (a + b - Zpos p). split; [lia|]. split; [unfold a, b; lia|].
    set (mrs := {| shr_m := Zpos (m * my); shr_r := false; shr_s := false |}).
    destruct (iter_shr_1 p mrs) as [Em Er]; [simpl; lia|].
    assert (H0 : 0 <= shr_m (iter_pos shr_1 p mrs)).
    { rewrite Em. apply Z.div_pos; [simpl; lia|apply Z.pow_pos_nonneg; lia]. }
    pose proof (round_nearest_even_bound _ H0) as [Hlo Hhi].
    split; [exact Hlo|].
    eapply Z.le_lt_trans; [exact Hhi|].
    rewrite Em, Er. cbn [shr_m mrs]. rewrite Pos2Z.inj_mul.
    set (M := Zpos m * Zpos my) in *.
    set (u := M / 2 ^ (Zpos p - 1)).
    assert (Hp1 : 0 < 2 ^ (Zpos p - 1)) by (apply Z.pow_pos_nonneg; lia).
    assert (Hu0 : 0 <= u) by (apply Z.div_pos; lia).
    replace (M / 2 ^ Zpos p) with (u / 2).
    2:{ unfold u. rewrite Z.div_div by lia.
        replace (2 ^ (Zpos p - 1) * 2) with (2 ^ Zpos p); [reflexivity|].
        replace (Zpos p) with (Z.succ (Zpos p - 1)) at 1 by lia.
        rewrite Z.pow_succ_r by lia. lia. }
    rewrite half_up by exact Hu0.
    (* [2 ^ (p - 1) < my] *)
    assert (Hgap : 2 ^ (Zpos p - 1) < Zpos my).
    { destruct (Z.max_spec (D + (e + ey) - 53) (3 - 1024 - 53)) as [[_ E]|[_ E]];
        rewrite E in Hn.
      - assert (H : 2 ^ (Zpos p - 1) <= 2 ^ 51)
          by (apply Z.pow_le_mono_r; unfold a, b in *; lia).
        assert (2 ^ 51 < 2 ^ 52) by (apply Z.pow_lt_mono_r; lia). lia.
      - assert (E' : D - 1 = (Zpos p - 1) + 53) by (unfold a, b in *; lia).
        rewrite E', Z.pow_add_r in HDlo by lia.
        assert (0 < 2 ^ 53) by (apply Z.pow_pos_nonneg; lia). nia. }
    set (c := a + b - Zpos p).
    assert (Hc : 0 <= c) by (unfold c; lia).
    assert (H2c : 0 < 2 ^ c) by (apply Z.pow_pos_nonneg; lia).
    assert (HT : L * 2 ^ c * (2 ^ (Zpos p - 1) * 2) = Zpos my * 2 ^ a).
    { rewrite Hmy. replace (2 ^ (Zpos p - 1) * 2) with (2 ^ Zpos p).
      - rewrite <- !Z.mul_assoc, <- !Z.pow_add_r by lia.
        do 2 f_equal. unfold c. lia.
      - replace (Zpos p) with (Z.succ (Zpos p - 1)) at 1 by lia.
        rewrite Z.pow_succ_r by lia. lia. }
    assert (Hu : u < 2 * (L * 2 ^ c) - 1).
    { unfold u. apply Z.div_lt_upper_bound; [lia|]. nia. }
    apply Z.div_lt_upper_bound; lia.
  - exists (a + b). split; [lia|]. split; [unfold a, b; lia|].
    cbn [shr_m loc_of_shr_record round_nearest_even].
    rewrite Pos2Z.inj_mul. split; [lia|].
    rewrite Z.pow_add_r by lia. nia.
Qed.

Lemma unit_draw_finite s m e :
  is_unit_draw (S754_finite s m e) = true ->
  s = false /\ -1074 <= e /\ e <= -1 /\
  Zpos m < 2 ^ (- e) /\ Zpos m < 2 ^ 53.
Proof.
  unfold is_unit_draw. rewrite andb_true_r.
  intro H. apply andb_prop in H. destruct H as [H Hlt].
  apply andb_prop in H. destruct H as [Hv Hle].
  destruct s; [discriminate|]. split; [reflexivity|].
  unfold valid_binary, bounded in Hv. apply andb_prop in Hv.
  destruct Hv as [Hc _]. unfold canonical_mantissa in Hc.
  apply Z.eqb_eq in Hc. unfold fexp, SpecFloat.emin, prec, emax in Hc.
  pose proof (digits2_pos_bounds m) as [Hlo Hhi].
  set (d := Zpos (digits2_pos m)) in *.
  assert (Hd1 : 1 <= d) by (unfold d; lia).
  assert (Hd53 : d <= 53) by lia.
  assert (Hde : d + e <= 0).
  { change (SFone prec emax) with (S754_finite false 4503599627370496 (-52))
      in Hlt.
    unfold SFltb, SFcompare in Hlt.
    destruct (Z.compare_spec e (-52)) as [E|E|E]; try discriminate; [|lia].
    assert (Hm : (m < 4503599627370496)%positive).
    { unfold Pos.lt. rewrite Pos.compare_cont_spec in Hlt.
      destruct (m ?= 4503599627370496)%positive;
        try discriminate; reflexivity. }
    assert (Hm' : Zpos m < 2 ^ 52) by exact Hm.
    assert (H : 2 ^ (d - 1) < 2 ^ 52)
      by (eapply Z.le_lt_trans; [exact Hlo|exact Hm']).
    clear Hm Hm' Hlt Hle. apply Z.pow_lt_mono_r_iff in H; [|lia|lia]. clear - H E. lia. }
  split; [lia|]. split; [lia|]. split.
  - eapply Z.lt_le_trans; [exact Hhi|]. apply Z.pow_le_mono_r; lia.
  - eapply Z.lt_le_trans; [exact Hhi|]. apply Z.pow_le_mono_r; lia.
Qed.

(** A draw scaled by a binary64 number [L >= 1] given as [my * 2 ^ ey]
    and floored is one of [0 .. L - 1]. *)
Lemma scaled_draw_below r my ey L :
  is_unit_draw r = true ->
  Zpos my = L * 2 ^ (- ey) -> -52 <= ey <= 0 -> 2 ^ 52 <= Zpos my < 2 ^ 53 ->
  exists i,
    Math_floor (js_mul r (S754_finite false my ey)) = Some i /\ 0 <= i < L.
Proof.
  intros Hr Hmy Hey Hmy53.
  assert (H2b : 0 < 2 ^ (- ey)) by (apply Z.pow_pos_nonneg; lia).
  assert (HL : 0 < L <= 2 ^ 53) by nia.
  destruct r as [[|]|[|]| |s m e]; try discriminate.
  - exists 0. split; [reflexivity|lia].
  - destruct (unit_draw_finite _ _ _ Hr) as (-> & He1 & He2 & Hm & Hm53).
    unfold js_mul, SFmul, binary_round_aux. cbn [xorb].
    destruct (shr_fexp prec emax (Zpos (m * my)) (e + ey) loc_Exact)
      as [mrs' e'] eqn:E1.
    destruct (first_round m e my ey L He1 He2 Hm Hm53 Hmy Hey Hmy53 _ _ E1)
      as (c & Hc & -> & Hb).
    destruct (shr_fexp prec emax
                (round_nearest_even (shr_m mrs') (loc_of_shr_record mrs'))
                (- c) loc_Exact) as [mrs'' e''] eqn:E2.
    exact (finish_below _ c L Hc HL Hb _ _ E2).
Qed.

(** [Math.floor(Math.random() * timeOffsets.length)] is an index of
    [timeOffsets]. *)
Lemma randomIndex_timeOffsets r :
  is_unit_draw r = true ->
  exists i, randomIndex timeOffsets r = Some i /\ 0 <= i < 9.
Proof.
  intro Hr. unfold randomIndex.
  change (number_of_int (Z.of_nat (List.length timeOffsets)))
    with (S754_finite false 5066549580791808 (-49)).
  apply scaled_draw_below; [exact Hr|reflexivity|lia|].
  change (2 ^ 52) with 4503599627370496.
  change (2 ^ 53) with 9007199254740992. lia.
Qed.

Lemma randomIndex_actions r :
  is_unit_draw r = true ->
  exists i, randomIndex actions r = Some i /\ 0 <= i < 4.
Proof.
  intro Hr. unfold randomIndex.
  change (number_of_int (Z.of_nat (List.length actions)))
    with (S754_finite false 4503599627370496 (-50)).
  apply scaled_draw_below; [exact Hr|reflexivity|lia|].
  change (2 ^ 52) with 4503599627370496.
  change (2 ^ 53) with 9007199254740992. lia.
Qed.

Lemma array_get_in_bounds {A : Type} (arr : list A) i :
  0 <= i < Z.of_nat (List.length arr) ->
  exists x, array_get arr (Some i) = Some x /\ In x arr.
Proof.
  intros [H0 H1]. unfold array_get.
  destruct (Z.ltb_spec i 0); [lia|].
  destruct (nth_error arr (Z.to_nat i)) as [x|] eqn:E.
  - exists x. split; [reflexivity|]. eapply nth_error_In; eassumption.
  - apply nth_error_None in E. lia.
Qed.

Lemma generateRandomTimestamp_value (w : World) :
  is_unit_draw (dice w 0%nat) = true ->
  exists offset,
    In offset timeOffsets /\
    fst (generateRandomTimestamp w) = Num (clock w 0%nat - offset).
Proof.
  intro Hr. unfold generateRandomTimestamp, Date_now, Math_random.
  cbn [clock dice].
  destruct (randomIndex_timeOffsets _ Hr) as (i & Hi & Hb).
  rewrite Hi.
  destruct (array_get_in_bounds timeOffsets i) as (offset & Ho & Hin);
    [simpl; lia|].
  rewrite Ho. exists offset. split; [exact Hin|reflexivity].
Qed.

Lemma generateRandomTimestamp_world (w : World) :
  snd (generateRandomTimestamp w) =
  {| clock := fun n => clock w (S n); dice := fun n => dice w (S n) |}.
Proof.
  unfold generateRandomTimestamp, Date_now, Math_random. cbn [clock dice].
  destruct (array_get timeOffsets _); reflexivity.
Qed.

(** X1: whatever binary64 number in [0, 1) [Math.random()] returns, the
    index computed from it is inside [timeOffsets], so
    [generateRandomTimestamp] returns the clock reading minus one of the
    nine offsets, never [NaN], and consumes one reading of the clock and
    one draw. *)
Theorem generateRandomTimestamp_offset (w : World) :
  is_unit_draw (dice w 0%nat) = true ->
  exists offset,
    In offset [30000; 120000; 300000; 600000; 1800000; 3600000; 7200000;
               86400000; 172800000] /\
    generateRandomTimestamp w =
    (Num (clock w 0%nat - offset),
     {| clock := fun n => clock w (S n); dice := fun n => dice w (S n) |}).
Proof.
  intro Hr.
  destruct (generateRandomTimestamp_value w Hr) as (offset & Hin & Hv).
  pose proof (generateRandomTimestamp_world w) as Hw.
  exists offset. split; [exact Hin|].
  destruct (generateRandomTimestamp w) as [t w']. cbn [fst snd] in *.
  now subst.
Qed.

Lemma generateRandomTimestamp_offset_witness :
  is_unit_draw (dice Scenario.world 0%nat) = true /\
  exists offset,
    In offset [30000; 120000; 300000; 600000; 1800000; 3600000; 7200000;
               86400000; 172800000] /\
    generateRandomTimestamp Scenario.world =
    (Num (clock Scenario.world 0%nat - offset),
     {| clock := fun n => clock Scenario.world (S n);
        dice := fun n => dice Scenario.world (S n) |}).
Proof.
  split; [vm_compute; reflexivity|].
  apply (generateRandomTimestamp_offset Scenario.world).
  vm_compute; reflexivity.
Defined.

(** X2: whatever binary64 number in [0, 1) [Math.random()] returns,
    [getRandomAction] returns one of the four actions, never
    [undefined], so [getActionText] prints one of the four labels and
    never the default "Active". *)
Theorem getRandomAction_defined (w : World) :
  is_unit_draw (dice w 0%nat) = true ->
  exists a,
    fst (getRandomAction w) = Some a /\
    In (getActionText (fst (getRandomAction w))) action_labels.
Proof.
  intro Hr. unfold getRandomAction, Math_random. cbn [clock dice fst].
  destruct (randomIndex_actions _ Hr) as (i & Hi & Hb).
  rewrite Hi.
  destruct (array_get_in_bounds actions i) as (a & Ha & _); [simpl; lia|].
  rewrite Ha. exists a. split; [reflexivity|].
  destruct a; simpl; auto.
Qed.

Lemma getRandomAction_defined_witness :
  is_unit_draw (dice Scenario.world 0%nat) = true /\
  exists a,
    fst (getRandomAction Scenario.world) = Some a /\
    In (getActionText (fst (getRandomAction Scenario.world))) action_labels.
Proof.
  split; [vm_compute; reflexivity|].
  apply (getRandomAction_defined Scenario.world).
  vm_compute; reflexivity.
Defined.

(** X3: a timestamp that [generateRandomTimestamp] has just synthesized,
    formatted against the clock reading it was computed from, prints one
    of nine labels, from "just now" to "2 days ago". *)
Theorem fresh_timestamp_label (w : World) :
  is_unit_draw (dice w 0%nat) = true ->
  In (formatTimeAgo (clock w 0%nat) (fst (generateRandomTimestamp w)))
     fresh_labels.
Proof.
  intro Hr.
  destruct (generateRandomTimestamp_value w Hr) as (offset & Hin & ->).
  rewrite formatTimeAgo_rule.
  replace (clock w 0%nat - (clock w 0%nat - offset)) with offset by lia.
  unfold fresh_labels.
  repeat (destruct Hin as [<-|Hin]; [vm_compute; tauto|]).
  destruct Hin.
Qed.

Lemma fresh_timestamp_label_witness :
  is_unit_draw (dice Scenario.world 0%nat) = true /\
  In (formatTimeAgo (clock Scenario.world 0%nat)
        (fst (generateRandomTimestamp Scenario.world)))
     fresh_labels.
Proof.
  split; [vm_compute; reflexivity|].
  apply (fresh_timestamp_label Scenario.world).
  vm_compute; reflexivity.
Defined.

End RandomFacts.

(** ** More on the merge *)

Module MergeMore.
Import Random Model Fetch MergeRule MergeFacts MergeReadings RandomFacts.

(** The two nested loops are one pass over the records of all
    responses. *)
Lemma collect_one_pass rs : forall acc,
  fold_left addRepo rs acc = fold_left addContributor (gathered rs) acc.
Proof.
  induction rs as [|r rs IH]; intro acc; cbn [fold_left gathered flat_map].
  - reflexivity.
  - rewrite fold_left_app, IH. f_equal.
    destruct r as [| |[| |items]]; reflexivity.
Qed.

(** An invariant of the pass holds of its result. *)
Lemma collect_invariant
    (P : list ApiContributor -> ContributorsMap -> World -> Prop) w0 :
  P [] [] w0 ->
  (forall recs m w c,
     P recs m w ->
     P (recs ++ [c])%list (fst (addContributor (m, w) c))
       (snd (addContributor (m, w) c))) ->
  forall rs,
    P (gathered rs) (fst (collectContributors rs w0))
      (snd (collectContributors rs w0)).
Proof.
  intros H0 Hstep rs. unfold collectContributors. rewrite collect_one_pass.
  induction (gathered rs) as [|c recs IH] using rev_ind.
  - exact H0.
  - rewrite fold_left_app. cbn [fold_left].
    destruct (fold_left addContributor recs ([], w0)) as [m w].
    now apply Hstep.
Qed.




Lemma accepted_logins_app a b :
  accepted_logins (a ++ b) = (accepted_logins a ++ accepted_logins b)%list.
Proof. apply flat_map_app. Qed.

Lemma first_seen_snoc ls l :
  first_seen (ls ++ [l]) =
  if in_dec string_dec l (first_seen ls) then first_seen ls
  else (first_seen ls ++ [l])%list.
Proof.
  unfold first_seen. rewrite rev_app_distr. cbn [rev app nodup].
  destruct (in_dec string_dec l (rev ls)) as [Hin|Hin];
    destruct (in_dec string_dec l (rev (nodup string_dec (rev ls))))
      as [Hin'|Hin']; try reflexivity.
  - elim Hin'. rewrite <- in_rev. now apply nodup_In.
  - elim Hin. rewrite <- in_rev in Hin'. now apply nodup_In in Hin'.
Qed.

Lemma map_get_present l m :
  In l (map fst m) <-> exists e, map_get l m = Some e.
Proof.
  split.
  - intro H. destruct (map_get l m) as [e|] eqn:E; [eauto|].
    apply map_get_absent in E. tauto.
  - intros [e E]. destruct (in_dec string_dec l (map fst m)) as [?|Hn];
      [assumption|].
    apply map_get_absent in Hn. congruence.
Qed.

(** X5: the keys of the map are the logins of the records that count,
    each once, in the order of their first record; this is the order
    [Array.from(map.values())] hands to the sort. *)
Theorem merge_key_order (responses : list (Response ApiContributor))
    (w : World) :
  map fst (fst (collectContributors responses w)) =
  first_seen (accepted_logins (gathered responses)).
Proof.
  apply (collect_invariant
           (fun recs m _ => map fst m = first_seen (accepted_logins recs)));
    [reflexivity|].
  intros recs m w0 c IH. rewrite accepted_logins_app.
  unfold accepted_logins at 2. cbn [flat_map]. rewrite app_nil_r.
  unfold addContributor.
  destruct (accepted_login c) as [l|]; [|now rewrite app_nil_r].
  rewrite first_seen_snoc, <- IH.
  destruct (map_get l m) as [existing|] eqn:Hg.
  - cbn [fst].
    assert (Hin : In l (map fst m)) by (apply map_get_present; eauto).
    rewrite keys_set_present by exact Hin.
    destruct (in_dec string_dec l (map fst m)); tauto.
  - destruct (generateRandomTimestamp w0) as [t w1]. cbn [fst].
    apply map_get_absent in Hg.
    rewrite keys_set_absent by exact Hg.
    destruct (in_dec string_dec l (map fst m)); tauto.
Qed.

Lemma map_total_set_present l existing v m :
  map_get l m = Some existing ->
  map_total (map_set l v m) =
  map_total m - contributions existing + contributions v.
Proof.
  unfold map_total, map_values.
  induction m as [|[k e] m IH]; simpl; [discriminate|].
  destruct (String.eqb l k); simpl.
  - intro H; injection H as ->. lia.
  - intro H. rewrite (IH H). lia.
Qed.

Lemma map_total_set_absent l v m :
  map_get l m = None ->
  map_total (map_set l v m) = map_total m + contributions v.
Proof.
  unfold map_total, map_values.
  induction m as [|[k e] m IH]; simpl; [intros _; lia|].
  destruct (String.eqb l k); simpl; [discriminate|].
  intro H. rewrite (IH H). lia.
Qed.

Lemma counting_app a b :
  counting (a ++ b) = (counting a ++ counting b)%list.
Proof. apply filter_app. Qed.

(** X6: the merge loses and invents no contribution: the counts the map
    holds add up to the counts of all records that have a login and are a
    user's. *)
Theorem merge_conserves_contributions
    (responses : list (Response ApiContributor)) (w : World) :
  map_total (fst (collectContributors responses w)) =
  total_contributions (counting (gathered responses)).
Proof.
  apply (collect_invariant
           (fun recs m _ => map_total m = total_contributions (counting recs)));
    [reflexivity|].
  intros recs m w0 c IH. rewrite counting_app, total_contributions_app.
  unfold counting at 2. cbn [filter]. unfold addContributor.
  destruct (accepted_login c) as [l|];
    [|cbn [fst total_contributions fold_right]; lia].
  cbn [total_contributions fold_right]. rewrite <- IH.
  destruct (map_get l m) as [existing|] eqn:Hg.
  - cbn [fst]. rewrite (map_total_set_present _ _ _ _ Hg). simpl. lia.
  - destruct (generateRandomTimestamp w0) as [t w1]. cbn [fst].
    rewrite (map_total_set_absent _ _ _ Hg). simpl. lia.
Qed.

Lemma map_set_length_present l v m :
  In l (map fst m) -> List.length (map_set l v m) = List.length m.
Proof.
  intro H. rewrite <- (length_map fst (map_set l v m)), <- (length_map fst m).
  now rewrite keys_set_present.
Qed.

Lemma map_set_length_absent l v m :
  ~ In l (map fst m) -> List.length (map_set l v m) = S (List.length m).
Proof.
  intro H. rewrite <- (length_map fst (map_set l v m)), <- (length_map fst m).
  rewrite keys_set_absent by exact H. rewrite length_app. simpl. lia.
Qed.

(** X7: the merge reads the clock and draws a random number once for each
    login it adds and never for a repeated login or a record it rejects:
    after it, the clock and the random source stand as many readings
    further as the map has entries. *)
Theorem merge_draws_once_per_login
    (responses : list (Response ApiContributor)) (w : World) (n : nat) :
  let result := collectContributors responses w in
  clock (snd result) n = clock w (n + List.length (fst result))%nat /\
  dice (snd result) n = dice w (n + List.length (fst result))%nat.
Proof.
  cbv zeta. revert n.
  apply (collect_invariant
           (fun _ m w1 => forall n,
              clock w1 n = clock w (n + List.length m)%nat /\
              dice w1 n = dice w (n + List.length m)%nat)).
  - intro n. cbn [List.length]. now rewrite Nat.add_0_r.
  - intros recs m w0 c IH n. unfold addContributor.
    destruct (accepted_login c) as [l|]; [|apply IH].
    destruct (map_get l m) as [existing|] eqn:Hg.
    + cbn [fst snd]. rewrite map_set_length_present; [apply IH|].
      apply map_get_present; eauto.
    + pose proof (generateRandomTimestamp_world w0) as Hw.
      destruct (generateRandomTimestamp w0) as [t w1]. cbn [fst snd] in *.
      subst w1. cbn [clock dice].
      rewrite map_set_length_absent by (now apply map_get_absent).
      destruct (IH (S n)) as [Hc Hd]. rewrite Hc, Hd.
      split; f_equal; lia.
Qed.

End MergeMore.

(** ** More on the fetch cycle *)

Module FetchMore.
Import Random Model Fetch MergeRule MergeFacts MergeReadings RandomFacts.
Import Ranking SortFacts MergeMore.

Lemma fetch_unfold net w repos :
  repos_response net = HttpOk (BodyArray repos) ->
  fetchLiveContributors net w =
  let (m, w1) := collectContributors (read_responses net repos) w in
  let live := firstn 15 (sort_by by_contributions (map_values m)) in
  if (0 <? List.length live)%nat
  then Fetched live (fst (synthesizeActivities live w1))
  else FetchFailed NoContributorsFound.
Proof. intro H. unfold fetchLiveContributors. now rewrite H. Qed.

(** X8: the fetch cycle reads the contributors of the first eight
    repositories only: two states of the API that list the same first
    eight repositories and answer alike for them give the same result,
    whatever else they list or answer. *)
Theorem fetch_reads_eight_repositories (net net' : Network) (w : World)
    (repos repos' : list Repo) :
  repos_response net = HttpOk (BodyArray repos) ->
  repos_response net' = HttpOk (BodyArray repos') ->
  firstn 8 repos = firstn 8 repos' ->
  (forall repo, In repo (firstn 8 repos) ->
     contributors_response net (full_name repo) =
     contributors_response net' (full_name repo)) ->
  fetchLiveContributors net w = fetchLiveContributors net' w.
Proof.
  intros H H' Hsame Hans.
  rewrite (fetch_unfold net w repos H), (fetch_unfold net' w repos' H').
  replace (read_responses net' repos') with (read_responses net repos);
    [reflexivity|].
  unfold read_responses. rewrite <- Hsame.
  apply map_ext_in. exact Hans.
Qed.

Lemma fetch_reads_eight_repositories_witness :
  let nine := repeat Scenario.site 9 in
  let net := {| repos_response := HttpOk (BodyArray nine);
                contributors_response :=
                  contributors_response Scenario.two_contributors |} in
  let net' := {| repos_response := HttpOk (BodyArray (repeat Scenario.site 8));
                 contributors_response :=
                   contributors_response Scenario.two_contributors |} in
  fetchLiveContributors net Scenario.world =
  fetchLiveContributors net' Scenario.world.
Proof.
  cbv zeta.
  apply (fetch_reads_eight_repositories _ _ Scenario.world
           (repeat Scenario.site 9) (repeat Scenario.site 8));
    reflexivity.
Defined.

Lemma sort_by_length {A : Type} (cmp : A -> A -> Z) l :
  List.length (sort_by cmp l) = List.length l.
Proof. apply Permutation_length, sort_by_perm. Qed.

Lemma live_positive (m : ContributorsMap) :
  (0 <? List.length
          (firstn 15 (sort_by by_contributions (map_values m))))%nat =
  negb (Nat.eqb (List.length m) 0).
Proof.
  rewrite length_firstn, sort_by_length. unfold map_values.
  rewrite length_map. destruct m; reflexivity.
Qed.

(** X9: when the repository listing is an array, the fetch cycle fails,
    with 'No contributors found', exactly when no record of the first
    eight repositories has a login and is a user's; one such record makes
    it succeed, however many of the requests failed. *)
Theorem fetch_succeeds_iff (net : Network) (w : World) (repos : list Repo) :
  repos_response net = HttpOk (BodyArray repos) ->
  match accepted_logins (gathered (read_responses net repos)) with
  | [] => fetchLiveContributors net w = FetchFailed NoContributorsFound
  | _ :: _ =>
      exists cs acts,
        fetchLiveContributors net w = Fetched cs acts /\ cs <> []
  end.
Proof.
  intro H. rewrite (fetch_unfold net w repos H).
  pose proof (collect_invariant
                (fun recs m _ => m = [] <-> accepted_logins recs = [])
                w (conj (fun _ => eq_refl) (fun _ => eq_refl))) as Hinv.
  assert (Hstep : forall recs m w0 c,
             (m = [] <-> accepted_logins recs = []) ->
             (fst (addContributor (m, w0) c) = [] <->
              accepted_logins (recs ++ [c]) = [])).
  { intros recs m w0 c IH. rewrite accepted_logins_app.
    unfold accepted_logins at 2. cbn [flat_map]. rewrite app_nil_r.
    unfold addContributor.
    destruct (accepted_login c) as [l|]; [|now rewrite app_nil_r].
    assert (Hne : forall v, map_set l v m <> [])
      by (intro v; destruct m as [|[k e] m]; simpl;
          [discriminate|destruct (String.eqb l k); discriminate]).
    split.
    - destruct (map_get l m); [|destruct (generateRandomTimestamp w0)];
        cbn [fst]; intro E; now apply Hne in E.
    - intro E. apply app_eq_nil in E. destruct E; discriminate. }
  specialize (Hinv Hstep (read_responses net repos)).
  destruct (collectContributors (read_responses net repos) w) as [m w1].
  cbn [fst] in Hinv. cbv zeta. rewrite live_positive.
  destruct (accepted_logins (gathered (read_responses net repos)))
    as [|l ls].
  - assert (m = []) by (now apply Hinv). subst m. reflexivity.
  - destruct m as [|p m]; [destruct Hinv as [Hinv _]; now specialize (Hinv eq_refl)|].
    cbn [List.length Nat.eqb negb]. do 2 eexists. split; [reflexivity|].
    intro E. apply (f_equal (@List.length _)) in E.
    rewrite length_firstn, sort_by_length in E. simpl in E. lia.
Qed.

Lemma fetch_succeeds_iff_witness :
  repos_response Scenario.two_contributors =
    HttpOk (BodyArray [Scenario.site]) /\
  exists cs acts,
    fetchLiveContributors Scenario.two_contributors Scenario.world =
      Fetched cs acts /\ cs <> [].
Proof.
  split; [reflexivity|].
  apply (fetch_succeeds_iff Scenario.two_contributors Scenario.world
           [Scenario.site]).
  reflexivity.
Defined.

End FetchMore.

(** ** What a successful fetch cycle stores *)

Module FetchedFacts.
Import Random Model Fetch MergeRule MergeFacts MergeReadings RandomFacts.
Import Ranking SortFacts MergeMore FetchMore.

Lemma map_get_In l m e : map_get l m = Some e -> In (l, e) m.
Proof.
  induction m as [|[k v] m IH]; simpl; [discriminate|].
  destruct (String.eqb_spec l k) as [->|Hne].
  - intro H; injection H as ->. now left.
  - intro H. right. now apply IH.
Qed.

Lemma map_set_Forall (Q : string * Contributor -> Prop) l v m :
  Forall Q m -> Q (l, v) -> Forall Q (map_set l v m).
Proof.
  intros Hm Hv. induction Hm as [|[k e] m Hk Hm IH]; simpl.
  - now constructor.
  - destruct (String.eqb_spec l k) as [->|Hne].
    + constructor; assumption.
    + constructor; assumption.
Qed.

Lemma firstn_incl {A : Type} n (l : list A) x :
  In x (firstn n l) -> In x l.
Proof.
  intro H. rewrite <- (firstn_skipn n l). apply in_or_app. now left.
Qed.

Lemma live_incl (m : ContributorsMap) c :
  In c (firstn 15 (sort_by by_contributions (map_values m))) ->
  In c (map_values m).
Proof.
  intro H. apply firstn_incl in H.
  eapply Permutation_in; [apply sort_by_perm|exact H].
Qed.

(** Every timestamp the merge stores was synthesized from the clock. *)
Lemma collect_synthesized rs w :
  (forall n, is_unit_draw (dice w n) = true) ->
  Forall (fun p => synthesized_from w (lastActivity (snd p)))
         (fst (collectContributors rs w)).
Proof.
  intro Hdice.
  enough (H : (exists k, forall n,
                  clock (snd (collectContributors rs w)) n =
                    clock w (n + k)%nat /\
                  dice (snd (collectContributors rs w)) n =
                    dice w (n + k)%nat) /\
              Forall (fun p => synthesized_from w (lastActivity (snd p)))
                     (fst (collectContributors rs w)))
    by exact (proj2 H).
  apply (collect_invariant
           (fun _ m w1 =>
              (exists k, forall n,
                  clock w1 n = clock w (n + k)%nat /\
                  dice w1 n = dice w (n + k)%nat) /\
              Forall (fun p => synthesized_from w (lastActivity (snd p))) m)).
  - split; [|constructor]. exists 0%nat. intro n. now rewrite Nat.add_0_r.
  - intros recs m w0 c [[k Hk] Hm]. unfold addContributor.
    destruct (accepted_login c) as [l|].
    2:{ cbn [fst snd]. split; [now exists k|exact Hm]. }
    destruct (map_get l m) as [existing|] eqn:Hg.
    + cbn [fst snd]. split; [now exists k|].
      apply map_set_Forall; [exact Hm|].
      apply map_get_In in Hg. rewrite Forall_forall in Hm.
      exact (Hm _ Hg).
    + destruct (generateRandomTimestamp_value w0) as (offset & Hin & Hv).
      { destruct (Hk 0%nat) as [_ ->]. apply Hdice. }
      pose proof (generateRandomTimestamp_world w0) as Hw.
      destruct (generateRandomTimestamp w0) as [t w1]. cbn [fst snd] in *.
      subst t w1. split.
      * exists (S k). intro n. cbn [clock dice].
        destruct (Hk (S n)) as [-> ->]. split; f_equal; lia.
      * apply map_set_Forall; [exact Hm|]. cbn [snd lastActivity].
        exists k, offset. split; [exact Hin|].
        destruct (Hk 0%nat) as [-> _]. reflexivity.
Qed.

Lemma collect_unit_draws rs w :
  (forall n, is_unit_draw (dice w n) = true) ->
  forall n, is_unit_draw (dice (snd (collectContributors rs w)) n) = true.
Proof.
  intros Hdice n.
  assert (H : exists k, dice (snd (collectContributors rs w)) n =
                        dice w (n + k)%nat).
  { revert n.
    apply (collect_invariant
             (fun _ _ w1 => forall n, exists k, dice w1 n = dice w (n + k)%nat)).
    - intro n. exists 0%nat. now rewrite Nat.add_0_r.
    - intros recs m w0 c IH n. unfold addContributor.
      destruct (accepted_login c) as [l|]; [|apply IH].
      destruct (map_get l m); [apply IH|].
      pose proof (generateRandomTimestamp_world w0) as Hw.
      destruct (generateRandomTimestamp w0) as [t w1]. cbn [fst snd] in *.
      subst w1. cbn [dice]. destruct (IH (S n)) as [k ->].
      exists (S k). f_equal. lia. }
  destruct H as [k ->]. apply Hdice.
Qed.

Lemma synthesizeActivities_defined l : forall w,
  (forall n, is_unit_draw (dice w n) = true) ->
  Forall (fun a => action a <> None) (fst (synthesizeActivities l w)).
Proof.
  induction l as [|c l IH]; intros w Hdice; cbn [synthesizeActivities].
  - constructor.
  - destruct (randomIndex_actions _ (Hdice 0%nat)) as (i & Hi & Hb).
    destruct (array_get_in_bounds actions i) as (a & Ha & _); [simpl; lia|].
    unfold getRandomAction, Math_random. rewrite Hi, Ha.
    specialize (IH {| clock := clock w; dice := fun n => dice w (S n) |}).
    destruct (synthesizeActivities l _) as [rest w2]. cbn [fst] in *.
    constructor; [discriminate|]. apply IH. intro n. apply (Hdice (S n)).
Qed.

(** X10: when every draw of [Math.random()] is a binary64 number in
    [0, 1), each contributor a successful fetch cycle stores has a
    [lastActivity] that is a reading of the clock during the cycle minus
    one of the nine offsets, never [NaN], and each activity has that
    timestamp and one of the four actions, never [undefined]. *)
Theorem fetched_values_defined (net : Network) (w : World)
    (cs : list Contributor) (acts : list ContributorActivity) :
  (forall n, is_unit_draw (dice w n) = true) ->
  fetchLiveContributors net w = Fetched cs acts ->
  Forall (fun c => synthesized_from w (lastActivity c)) cs /\
  Forall (fun a => synthesized_from w (timestamp a) /\ action a <> None) acts.
Proof.
  intros Hdice Hf.
  destruct (repos_response net) as [| |[| |repos]] eqn:Hr;
    try (unfold fetchLiveContributors in Hf; rewrite Hr in Hf; discriminate).
  rewrite (fetch_unfold net w repos Hr) in Hf.
  pose proof (collect_synthesized (read_responses net repos) w Hdice) as Hs.
  pose proof (collect_unit_draws (read_responses net repos) w Hdice) as Hd.
  destruct (collectContributors (read_responses net repos) w) as [m w1].
  cbn [fst snd] in Hs, Hd. cbv zeta in Hf.
  destruct (0 <? _)%nat; [|discriminate]. injection Hf as <- <-.
  assert (Hcs : Forall (fun c => synthesized_from w (lastActivity c))
                  (firstn 15 (sort_by by_contributions (map_values m)))).
  { apply Forall_forall. intros c Hc. apply live_incl in Hc.
    unfold map_values in Hc. apply in_map_iff in Hc.
    destruct Hc as (p & <- & Hp). rewrite Forall_forall in Hs.
    exact (Hs p Hp). }
  split; [exact Hcs|].
  set (live := firstn 15 _) in *.
  pose proof (synthesizeActivities_lockstep live w1) as (_ & Hmap & Hts).
  pose proof (synthesizeActivities_defined live w1 Hd) as Hact.
  apply Forall_forall. intros a Ha.
  rewrite Forall_forall in Hts, Hact, Hcs. split; [|now apply Hact].
  rewrite (Hts a Ha). apply Hcs. rewrite <- Hmap.
  now apply in_map.
Qed.

Lemma fetched_values_defined_witness :
  (forall n, is_unit_draw (dice Scenario.world n) = true) /\
  exists cs acts,
    fetchLiveContributors Scenario.two_contributors Scenario.world =
      Fetched cs acts /\
    Forall (fun c => synthesized_from Scenario.world (lastActivity c)) cs /\
    Forall (fun a => synthesized_from Scenario.world (timestamp a) /\
                     action a <> None) acts.
Proof.
  assert (Hd : forall n, is_unit_draw (dice Scenario.world n) = true)
    by (intro n; vm_compute; reflexivity).
  split; [exact Hd|].
  destruct (fetchLiveContributors Scenario.two_contributors Scenario.world)
    as [cs acts|e] eqn:E; [|vm_compute in E; discriminate].
  exists cs, acts. split; [reflexivity|].
  apply (fetched_values_defined Scenario.two_contributors Scenario.world
           cs acts Hd E).
Defined.

(** *** The ranking *)





Lemma with_count_insert k x l :
  with_count k (insert_by by_contributions x l) =
  with_count k (x :: l).
Proof.
  induction l as [|y l IH]; [reflexivity|]. cbn [insert_by].
  destruct (Z.leb_spec (by_contributions x y) 0) as [H|H]; [reflexivity|].
  unfold with_count in *. cbn [filter] in *. rewrite IH.
  unfold by_contributions in H.
  destruct (Z.eqb_spec (contributions y) k) as [Ey|Ey];
    destruct (Z.eqb_spec (contributions x) k) as [Ex|Ex];
    try reflexivity.
  lia.
Qed.

(** X12: the sort is stable: contributors with the same count stay in
    the order the map holds them, that of their first records. *)
Theorem ties_keep_map_order (l : list Contributor) (k : Z) :
  with_count k (sort_by by_contributions l) = with_count k l.
Proof.
  induction l as [|x l IH]; [reflexivity|].
  cbn [sort_by fold_right]. fold (sort_by by_contributions l).
  rewrite with_count_insert. unfold with_count in *. cbn [filter].
  now rewrite IH.
Qed.

(** The logins of the values of the map are its keys. *)
Lemma collect_logins rs w :
  map login (map_values (fst (collectContributors rs w))) =
  map fst (fst (collectContributors rs w)).
Proof.
  assert (H : Forall (fun p => login (snd p) = fst p)
                (fst (collectContributors rs w))).
  { apply (collect_invariant
             (fun _ m _ => Forall (fun p => login (snd p) = fst p) m));
      [constructor|].
    intros recs m w0 c Hm. unfold addContributor.
    destruct (accepted_login c) as [l|]; [|exact Hm].
    destruct (map_get l m) as [existing|] eqn:Hg.
    - cbn [fst]. apply map_set_Forall; [exact Hm|].
      apply map_get_In in Hg. rewrite Forall_forall in Hm.
      exact (Hm _ Hg).
    - destruct (generateRandomTimestamp w0) as [t w1]. cbn [fst].
      apply map_set_Forall; [exact Hm|reflexivity]. }
  unfold map_values. rewrite map_map.
  induction H as [|p m Hp Hm IH]; simpl; [reflexivity|].
  now rewrite Hp, IH.
Qed.

Lemma NoDup_firstn {A : Type} n (l : list A) :
  NoDup l -> NoDup (firstn n l).
Proof.
  intro H. rewrite <- (firstn_skipn n l) in H.
  now apply NoDup_app_remove_r in H.
Qed.

(** The logins of a fetched list are pairwise distinct. *)
Lemma fetched_distinct net w cs acts :
  fetchLiveContributors net w = Fetched cs acts -> NoDup (map login cs).
Proof.
  intro Hf.
  destruct (repos_response net) as [| |[| |repos]] eqn:Hr;
    try (unfold fetchLiveContributors in Hf; rewrite Hr in Hf; discriminate).
  rewrite (fetch_unfold net w repos Hr) in Hf.
  pose proof (collect_logins (read_responses net repos) w) as Hl.
  pose proof (repos_merged (read_responses net repos) [] [] w merged_empty)
    as [Hnd _].
  change (fold_left addRepo (read_responses net repos) ([], w))
    with (collectContributors (read_responses net repos) w) in Hnd.
  destruct (collectContributors (read_responses net repos) w) as [m w1].
  cbn [fst] in Hl, Hnd. cbv zeta in Hf.
  destruct (0 <? _)%nat; [|discriminate]. injection Hf as <- _.
  change (NoDup (map login
                   (firstn 15 (sort_by by_contributions (map_values m))))).
  rewrite <- firstn_map. apply NoDup_firstn.
  rewrite <- Hl in Hnd.
  eapply Permutation_NoDup; [|exact Hnd].
  apply Permutation_map, Permutation_sym, sort_by_perm.
Qed.

End FetchedFacts.

(** ** More on the component *)

Module WidgetMore.
Import Random Model Fetch TimeAgo Ranking Widget Traces WidgetReadings.
Import SortFacts WidgetFacts FetchedFacts.

(** What a step is, by cases on the event. *)
Lemma step_cases st ev st' :
  step st ev = Some st' ->
  (ev = RunFetchEffect /\ effect_pending st = true /\
   st' = runFetchEffect st) \/
  (effect_pending st = false /\
   ((exists i net w captured,
       ev = FetchSettles i net w /\
       nth_error (inFlight st) i = Some captured /\
       st' = settle i captured (fetchLiveContributors net w) st) \/
    (exists i delay,
       ev = RetryTimerFires i /\
       nth_error (retryTimers st) i = Some delay /\
       st' = fireRetryTimer i st) \/
    (ev = RefreshTick /\ st' = setRetryCount 0 st) \/
    (exists now, ev = ClockTick now /\ st' = setCurrentTime now st) \/
    (ev = RotationTick /\ activities st <> [] /\ st' = rotate st) \/
    (exists card,
       ev = Dismiss /\ render st = Presence (Some card) /\
       st' = setIsVisible false st))).
Proof.
  destruct ev; unfold step; destruct (effect_pending st); try discriminate.
  - intro H; injection H as <-. left. auto.
  - destruct (nth_error (inFlight st) i) as [captured|] eqn:E;
      [|discriminate].
    intro H; injection H as <-. right. split; [reflexivity|].
    left. now exists i, net, w, captured.
  - destruct (nth_error (retryTimers st) i) as [delay|] eqn:E;
      [|discriminate].
    intro H; injection H as <-. right. split; [reflexivity|].
    right; left. now exists i, delay.
  - intro H; injection H as <-. right. split; [reflexivity|].
    right; right; left. auto.
  - intro H; injection H as <-. right. split; [reflexivity|].
    right; right; right; left. now exists now.
  - destruct (activities st) as [|a l] eqn:E; [discriminate|].
    intro H; injection H as <-. right. split; [reflexivity|].
    right; right; right; right; left. repeat split. discriminate.
  - destruct (render st) as [| |[card|]|] eqn:E; try discriminate.
    intro H; injection H as <-. right. split; [reflexivity|].
    right; right; right; right; right. now exists card.
Qed.

Lemma run_invariant (I : Component -> Prop) :
  (forall st ev st', I st -> step st ev = Some st' -> I st') ->
  forall evs st st', I st -> run st evs = Some st' -> I st'.
Proof.
  intros Hstep evs. induction evs as [|ev evs IH]; intros st st' Hi;
    cbn [run].
  - intro H; injection H as <-. exact Hi.
  - destruct (step st ev) as [st1|] eqn:Hs; [|discriminate].
    apply IH. eapply Hstep; eassumption.
Qed.

(** A property of every fetched pair of lists holds of the stored ones. *)
Lemma run_fetched (P : list Contributor -> list ContributorActivity -> Prop) :
  P [] [] ->
  (forall net w cs acts,
     fetchLiveContributors net w = Fetched cs acts -> P cs acts) ->
  forall now evs st,
    run (mount now) evs = Some st -> P (contributors st) (activities st).
Proof.
  intros H0 Hf now evs st.
  apply (run_invariant (fun st => P (contributors st) (activities st)));
    [|exact H0].
  clear - Hf. intros st ev st' Hi Hs. apply step_lists in Hs.
  destruct ev; try (destruct Hs as [-> ->]; exact Hi).
  destruct (fetchLiveContributors net w) as [cs acts|e] eqn:E;
    destruct Hs as [-> ->]; [eapply Hf; eassumption|exact Hi].
Qed.

(** X13: at every point of a run from mount no login occurs twice in the
    stored contributor list, so the grid shows no contributor twice. *)
Theorem stored_logins_distinct (now : Z) (evs : list Event)
    (st : Component) :
  run (mount now) evs = Some st ->
  NoDup (map login (contributors st)) /\
  NoDup (map login (firstn 8 (contributors st))).
Proof.
  intro H.
  assert (Hnd : NoDup (map login (contributors st))).
  { revert H.
    apply (run_fetched (fun cs _ => NoDup (map login cs))); [constructor|].
    intros net w cs acts. apply fetched_distinct. }
  split; [exact Hnd|].
  rewrite <- firstn_map. now apply NoDup_firstn.
Qed.

Lemma stored_logins_distinct_witness :
  run (mount Scenario.start) Scenario.recovered =
    Some Scenario.after_recovered /\
  NoDup (map login (contributors Scenario.after_recovered)) /\
  NoDup (map login (firstn 8 (contributors Scenario.after_recovered))).
Proof.
  split; [vm_compute; reflexivity|].
  apply (stored_logins_distinct Scenario.start Scenario.recovered).
  vm_compute; reflexivity.
Defined.

Lemma remove_nth_Forall {A : Type} (P : A -> Prop) i : forall l,
  Forall P l -> Forall P (remove_nth i l).
Proof.
  induction i as [|i IH]; intros l H; destruct H; simpl;
    try constructor; auto.
Qed.

Lemma nth_error_Forall {A : Type} (P : A -> Prop) l i x :
  Forall P l -> nth_error l i = Some x -> P x.
Proof.
  intros H E. rewrite Forall_forall in H. apply H.
  eapply nth_error_In; eassumption.
Qed.

(** X14: at every point of a run from mount, whatever refresh ticks and
    overlapping fetches occur, [retryCount] is not negative and every
    pending retry timer has a delay of 5000, 10000 or 15000 ms. *)
Theorem retry_delays_bounded (now : Z) (evs : list Event) (st : Component) :
  run (mount now) evs = Some st ->
  0 <= retryCount st /\
  Forall (fun delay => In delay retry_delays) (retryTimers st).
Proof.
  intro H.
  enough (Hi : 0 <= retryCount st /\
               Forall (fun captured => 0 <= captured) (inFlight st) /\
               Forall (fun delay => In delay retry_delays) (retryTimers st))
    by tauto.
  revert H.
  apply (run_invariant
           (fun st => 0 <= retryCount st /\
                      Forall (fun captured => 0 <= captured) (inFlight st) /\
                      Forall (fun delay => In delay retry_delays)
                             (retryTimers st))).
  2:{ simpl. repeat split; try constructor. lia. }
  clear. intros st ev st' (Hrc & Hfl & Htm) Hs.
  destruct (step_cases _ _ _ Hs)
    as [(_ & _ & ->)
       |(_ & [(i & net & w & cap & _ & Hn & ->)
             |[(i & d & _ & Hn & ->)
              |[(_ & ->)|[(t & _ & ->)|[(_ & _ & ->)|(c & _ & _ & ->)]]]]])];
    try (simpl; now auto).
  - simpl. repeat split; [assumption| |assumption].
    apply Forall_app. split; [assumption|]. now repeat constructor.
  - pose proof (nth_error_Forall _ _ _ _ Hfl Hn) as Hcap. cbv beta in Hcap.
    unfold settle.
    destruct (fetchLiveContributors net w); simpl;
      (split; [lia || assumption|]);
      (split; [now apply remove_nth_Forall|]); [assumption|].
    apply Forall_app. split; [assumption|]. unfold retryDelay.
    destruct (Z.ltb_spec cap 3); [|constructor].
    constructor; [|constructor]. unfold retry_delays.
    assert (Hc : cap = 0 \/ cap = 1 \/ cap = 2) by lia.
    destruct Hc as [E | [E | E]]; rewrite E; simpl; auto.
  - simpl. repeat split; [lia|assumption|now apply remove_nth_Forall].
Qed.

Lemma retry_delays_bounded_witness :
  run (mount Scenario.start) Scenario.recovered =
    Some Scenario.after_recovered /\
  retryTimers Scenario.after_recovered = [5000] /\
  0 <= retryCount Scenario.after_recovered /\
  Forall (fun delay => In delay retry_delays)
         (retryTimers Scenario.after_recovered).
Proof.
  split; [vm_compute; reflexivity|]. split; [vm_compute; reflexivity|].
  apply (retry_delays_bounded Scenario.start Scenario.recovered).
  vm_compute; reflexivity.
Defined.

End WidgetMore.

(** ** The index, the card and the close button *)

Module CardFacts.
Import Random Model Fetch TimeAgo Ranking Widget Traces WidgetReadings.
Import SortFacts WidgetFacts FetchedFacts WidgetMore.

Lemma array_get_defined {A : Type} (arr : list A) i :
  array_get arr (Some i) <> None <->
  0 <= i < Z.of_nat (List.length arr).
Proof.
  unfold array_get. destruct (Z.ltb_spec i 0) as [Hneg|Hpos].
  - split; [intro H; now elim H|lia].
  - rewrite nth_error_Some. lia.
Qed.


(** X15: the render function throws exactly when the component is not
    loading, has activities, is visible, and the rotation index is outside
    the activity list; a dismissed or loading component never throws. *)
Theorem render_throws_iff (st : Component) :
  render st = TypeError <->
  loading st = false /\ activities st <> [] /\ isVisible st = true /\
  ~ index_in_bounds st.
Proof.
  unfold render, index_in_bounds.
  pose proof (array_get_defined (activities st) (currentActivityIndex st))
    as Hdef.
  destruct (loading st); [split; [discriminate|intros [? _]; discriminate]|].
  destruct (activities st) as [|a l] eqn:Ea.
  - simpl. split; [discriminate|]. intros (_ & H & _). now elim H.
  - cbn [List.length Nat.eqb].
    destruct (isVisible st).
    2:{ split; [discriminate|]. intros (_ & _ & H & _). discriminate. }
    destruct (array_get (a :: l) (Some (currentActivityIndex st))) as [x|].
    + split; [discriminate|]. intros (_ & _ & _ & H). elim H.
      apply Hdef. discriminate.
    + split; [|reflexivity]. intros _. repeat split; try discriminate.
      intro H. apply Hdef in H. now elim H.
Qed.




(** X17: once the card is dismissed, whatever happens afterwards the
    render function never returns the card again and never throws: it
    returns nothing, or the loading placeholder while a fetch has set
    [loading]. *)
Theorem dismissed_never_shows_card (st st' : Component)
    (evs : list Event) :
  isVisible st = false ->
  run st evs = Some st' ->
  isVisible st' = false /\
  (render st' = LoadingPlaceholder \/ renders_nothing (render st') = true).
Proof.
  intros Hv Hrun.
  assert (Hv' : isVisible st' = false).
  { revert Hv Hrun. apply (run_invariant (fun st => isVisible st = false)).
    intros s ev s' H Hs. eapply dismissed_stays; eassumption. }
  split; [exact Hv'|].
  destruct (loading st') eqn:Hl.
  - left. unfold render. now rewrite Hl.
  - right. now apply dismissed_idle_renders_nothing.
Qed.

Lemma dismissed_never_shows_card_witness :
  isVisible (Scenario.state_after (Scenario.recovered ++ [Dismiss])) = false /\
  run (Scenario.state_after (Scenario.recovered ++ [Dismiss]))
      [RetryTimerFires 0; RunFetchEffect] =
    Some (Scenario.state_after Scenario.dismissed_then_retry) /\
  isVisible (Scenario.state_after Scenario.dismissed_then_retry) = false /\
  (render (Scenario.state_after Scenario.dismissed_then_retry) =
     LoadingPlaceholder \/
   renders_nothing
     (render (Scenario.state_after Scenario.dismissed_then_retry)) = true).
Proof.
  split; [vm_compute; reflexivity|]. split; [vm_compute; reflexivity|].
  apply (dismissed_never_shows_card
           (Scenario.state_after (Scenario.recovered ++ [Dismiss]))
           (Scenario.state_after Scenario.dismissed_then_retry)
           [RetryTimerFires 0; RunFetchEffect]);
    vm_compute; reflexivity.
Defined.

(** X18: when the first fetch of a component succeeds, the lists it
    stored are never replaced: [retryCount] is 0 and stays 0, so the
    refresh interval's [setRetryCount(0)] changes nothing, the fetch
    effect never runs again, and no event starts another fetch. *)
Theorem first_success_is_final (now : Z) (net : Network) (w : World)
    (cs : list Contributor) (acts : list ContributorActivity)
    (evs : list Event) (st : Component) :
  fetchLiveContributors net w = Fetched cs acts ->
  run (mount now) (RunFetchEffect :: FetchSettles 0 net w :: evs) = Some st ->
  contributors st = cs /\ activities st = acts /\
  retryCount st = 0 /\ at_rest st.
Proof.
  intros Hf. cbn [run]. unfold step at 1. cbn [effect_pending mount effectDeps].
  cbn [run]. unfold step at 1.
  change (effect_pending (runFetchEffect (mount now))) with false.
  cbn [inFlight runFetchEffect mount app nth_error]. rewrite Hf.
  intro Hrun.
  enough (Hi : contributors st = cs /\ activities st = acts /\
               retryCount st = 0 /\ effectDeps st = Some 0 /\
               inFlight st = [] /\ retryTimers st = []).
  { destruct Hi as (? & ? & Hrc & Hd & ? & ?). repeat split; try assumption.
    unfold effect_pending. rewrite Hd, Hrc. reflexivity. }
  revert Hrun.
  apply (run_invariant
           (fun st => contributors st = cs /\ activities st = acts /\
                      retryCount st = 0 /\ effectDeps st = Some 0 /\
                      inFlight st = [] /\ retryTimers st = [])).
  2:{ simpl. repeat split. }
  clear. intros st ev st' (Hc & Ha & Hrc & Hd & Hfl & Htm) Hs.
  destruct (step_cases _ _ _ Hs)
    as [(_ & Hp & _)
       |(_ & [(i & net & w & cap & _ & Hn & _)
             |[(i & d & _ & Hn & _)
              |[(_ & ->)|[(t & _ & ->)|[(_ & _ & ->)|(c & _ & _ & ->)]]]]])];
    try (simpl; now auto).
  - unfold effect_pending in Hp. rewrite Hd, Hrc in Hp. discriminate.
  - rewrite Hfl in Hn. destruct i; discriminate.
  - rewrite Htm in Hn. destruct i; discriminate.
Qed.

Lemma first_success_is_final_witness :
  let evs :=
    RunFetchEffect
      :: FetchSettles 0 Scenario.two_contributors Scenario.world
      :: [RefreshTick; RotationTick; RefreshTick] in
  let cs := contributors (Scenario.state_after evs) in
  let acts := activities (Scenario.state_after evs) in
  fetchLiveContributors Scenario.two_contributors Scenario.world =
    Fetched cs acts /\
  run (mount Scenario.start) evs = Some (Scenario.state_after evs) /\
  contributors (Scenario.state_after evs) = cs /\
  activities (Scenario.state_after evs) = acts /\
  retryCount (Scenario.state_after evs) = 0 /\
  at_rest (Scenario.state_after evs).
Proof.
  cbv zeta.
  split; [vm_compute; reflexivity|]. split; [vm_compute; reflexivity|].
  apply (first_success_is_final Scenario.start Scenario.two_contributors
           Scenario.world
           (contributors
              (Scenario.state_after
                 (RunFetchEffect
                    :: FetchSettles 0 Scenario.two_contributors Scenario.world
                    :: [RefreshTick; RotationTick; RefreshTick])))
           (activities
              (Scenario.state_after
                 (RunFetchEffect
                    :: FetchSettles 0 Scenario.two_contributors Scenario.world
                    :: [RefreshTick; RotationTick; RefreshTick])))
           [RefreshTick; RotationTick; RefreshTick]);
    vm_compute; reflexivity.
Defined.

End CardFacts.

(** ** What the card shows *)

Module CardContents.
Import Random Model Fetch TimeAgo TimeAgoFacts Ranking Widget Traces.
Import WidgetReadings SortFacts WidgetFacts WidgetMore CardFacts.

Lemma render_card st card :
  render st = Presence (Some card) ->
  exists a,
    array_get (activities st) (Some (currentActivityIndex st)) = Some a /\
    shown card = a /\
    time_text card = formatTimeAgo (currentTime st) (timestamp a) /\
    contributor_count card = List.length (contributors st) /\
    avatars card = firstn 8 (contributors st) /\
    more card =
      if (8 <? List.length (contributors st))%nat
      then Some (Z.of_nat (List.length (contributors st)) - 8)
      else None.
Proof.
  unfold render.
  destruct (loading st); [discriminate|].
  destruct (List.length (activities st) =? 0)%nat; [discriminate|].
  destruct (isVisible st); [|discriminate].
  destruct (array_get (activities st) (Some (currentActivityIndex st)))
    as [a|]; [|discriminate].
  intro H; injection H as <-. exists a. repeat split.
Qed.

Lemma array_get_In {A : Type} (arr : list A) i x :
  array_get arr (Some i) = Some x -> In x arr.
Proof.
  unfold array_get. destruct (i <? 0); [discriminate|].
  apply nth_error_In.
Qed.

(** X19: whenever a run from mount renders the card, the activity it
    shows belongs to a contributor of the stored list, and the time it
    prints is [formatTimeAgo] of the component's [currentTime] and that
    contributor's [lastActivity]. *)
Theorem card_shows_stored_contributor (now : Z) (evs : list Event)
    (st : Component) (card : Card) :
  run (mount now) evs = Some st ->
  render st = Presence (Some card) ->
  In (contributor (shown card)) (contributors st) /\
  time_text card =
    formatTimeAgo (currentTime st) (lastActivity (contributor (shown card))).
Proof.
  intros Hrun Hr.
  apply run_lists in Hrun. destruct Hrun as (_ & _ & Hls).
  destruct Hls as (_ & Hmap & Hts); [repeat split; constructor|].
  destruct (render_card st card Hr) as (a & Ha & -> & Ht & _).
  apply array_get_In in Ha. rewrite Forall_forall in Hts.
  split.
  - rewrite <- Hmap. now apply in_map.
  - rewrite Ht. now rewrite (Hts a Ha).
Qed.

Lemma card_shows_stored_contributor_witness :
  exists card,
    run (mount Scenario.start) Scenario.recovered =
      Some Scenario.after_recovered /\
    render Scenario.after_recovered = Presence (Some card) /\
    time_text card = "30 minutes ago" /\
    In (contributor (shown card)) (contributors Scenario.after_recovered) /\
    time_text card =
      formatTimeAgo (currentTime Scenario.after_recovered)
                    (lastActivity (contributor (shown card))).
Proof.
  eexists. split; [vm_compute; reflexivity|].
  split; [vm_compute; reflexivity|]. split; [vm_compute; reflexivity|].
  apply (card_shows_stored_contributor Scenario.start Scenario.recovered
           Scenario.after_recovered);
    vm_compute; reflexivity.
Defined.

(** X20: whenever a run from mount renders the card, the grid shows at
    most 8 avatars, the avatars and the number behind the "+" add up to
    the count in the grid's header, which is at most 15, and the "+" is
    shown exactly when there are more than 8 contributors, with a number
    from 1 to 7. *)
Theorem grid_counts (now : Z) (evs : list Event) (st : Component)
    (card : Card) :
  run (mount now) evs = Some st ->
  render st = Presence (Some card) ->
  (List.length (avatars card) <= 8)%nat /\
  Z.of_nat (List.length (avatars card)) + more_count card =
    Z.of_nat (contributor_count card) /\
  (contributor_count card <= 15)%nat /\
  match more card with
  | Some k => 1 <= k <= 7 /\ (8 < contributor_count card)%nat
  | None => (contributor_count card <= 8)%nat
  end.
Proof.
  intros Hrun Hr.
  apply run_lists in Hrun. destruct Hrun as (_ & Hrk & _).
  destruct Hrk as [_ Hlen]; [split; [constructor|simpl; lia]|].
  destruct (render_card st card Hr) as (a & _ & _ & _ & Hn & Hav & Hmore).
  unfold more_count. rewrite Hav, Hmore, Hn, length_firstn.
  destruct (Nat.ltb_spec 8 (List.length (contributors st))); lia.
Qed.

Lemma grid_counts_witness :
  exists card,
    run (mount Scenario.start) Scenario.recovered =
      Some Scenario.after_recovered /\
    render Scenario.after_recovered = Presence (Some card) /\
    contributor_count card = 2%nat /\
    (List.length (avatars card) <= 8)%nat /\
    Z.of_nat (List.length (avatars card)) + more_count card =
      Z.of_nat (contributor_count card) /\
    (contributor_count card <= 15)%nat /\
    match more card with
    | Some k => 1 <= k <= 7 /\ (8 < contributor_count card)%nat
    | None => (contributor_count card <= 8)%nat
    end.
Proof.
  eexists. split; [vm_compute; reflexivity|].
  split; [vm_compute; reflexivity|]. split; [vm_compute; reflexivity|].
  apply (grid_counts Scenario.start Scenario.recovered
           Scenario.after_recovered);
    vm_compute; reflexivity.
Defined.

Lemma rotate_fields st :
  activities (rotate st) = activities st /\
  effect_pending (rotate st) = effect_pending st.
Proof. split; reflexivity. Qed.

Lemma rotate_mod st :
  index_in_bounds st ->
  currentActivityIndex (rotate st) =
  (currentActivityIndex st + 1) mod Z.of_nat (List.length (activities st)).
Proof.
  intros [H0 H1]. unfold rotate. simpl. apply Z.rem_mod_nonneg; lia.
Qed.

(** X21: from an index inside the list, [k] rotation ticks with no other
    event between them move the index [k] places round the list: it is
    then [(index + k) mod length], and after as many ticks as the list
    is long it is where it was. *)
Theorem rotation_cycles (k : nat) (st : Component) :
  effect_pending st = false ->
  index_in_bounds st ->
  exists st',
    run st (repeat RotationTick k) = Some st' /\
    activities st' = activities st /\
    currentActivityIndex st' =
      (currentActivityIndex st + Z.of_nat k)
        mod Z.of_nat (List.length (activities st)) /\
    (k = List.length (activities st) ->
     currentActivityIndex st' = currentActivityIndex st).
Proof.
  intros Hp Hb.
  enough (H : exists st',
             run st (repeat RotationTick k) = Some st' /\
             activities st' = activities st /\
             currentActivityIndex st' =
               (currentActivityIndex st + Z.of_nat k)
                 mod Z.of_nat (List.length (activities st))).
  { destruct H as (st' & Hrun & Ha & Hi). exists st'.
    repeat split; try assumption. intros ->. rewrite Hi.
    destruct Hb as [H0 H1].
    rewrite <- (Z.mul_1_l (Z.of_nat (List.length (activities st)))) at 1.
    rewrite Z.mod_add by lia. apply Z.mod_small. lia. }
  revert st Hp Hb. induction k as [|k IH]; intros st Hp Hb.
  - exists st. repeat split. rewrite Z.add_0_r.
    symmetry. apply Z.mod_small. exact Hb.
  - cbn [repeat run]. unfold step. rewrite Hp.
    assert (Hne : activities st <> []).
    { destruct Hb as [H0 H1]. destruct (activities st); [simpl in H1; lia|].
      discriminate. }
    assert (Hlen : (List.length (activities st) =? 0)%nat = false).
    { destruct (activities st); [now elim Hne|reflexivity]. }
    rewrite Hlen.
    destruct (rotate_fields st) as [Hact Heff].
    destruct (IH (rotate st)) as (st' & Hrun & Ha & Hi).
    + now rewrite Heff.
    + apply rotate_in_bounds; [apply Hb|exact Hne].
    + exists st'. split; [exact Hrun|]. rewrite Ha, Hi, Hact.
      split; [reflexivity|]. rewrite (rotate_mod st Hb).
      rewrite Zplus_mod_idemp_l. f_equal. lia.
Qed.

Lemma rotation_cycles_witness :
  effect_pending Scenario.after_recovered = false /\
  index_in_bounds Scenario.after_recovered /\
  exists st',
    run Scenario.after_recovered (repeat RotationTick 2) = Some st' /\
    activities st' = activities Scenario.after_recovered /\
    currentActivityIndex st' =
      (currentActivityIndex Scenario.after_recovered + Z.of_nat 2)
        mod Z.of_nat (List.length (activities Scenario.after_recovered)) /\
    (2%nat = List.length (activities Scenario.after_recovered) ->
     currentActivityIndex st' =
       currentActivityIndex Scenario.after_recovered).
Proof.
  split; [vm_compute; reflexivity|].
  split; [vm_compute; split; [discriminate|reflexivity]|].
  apply (rotation_cycles 2 Scenario.after_recovered).
  - vm_compute; reflexivity.
  - vm_compute; split; [discriminate|reflexivity].
Defined.

End CardContents.

(** ** The counts [formatTimeAgo] prints *)

Module TimeAgoCounts.
Import TimeAgo TimeAgoFacts.

(** X22: whatever the timestamp and the current time, [formatTimeAgo]
    prints "just now" or a count of a unit that is in the unit's range:
    31 to 59 seconds, 1 to 59 minutes, 1 to 23 hours, or at least 1 day;
    it never prints a zero or negative count, 60 minutes or 24 hours. *)
Theorem formatTimeAgo_counts (now t : Z) :
  let d := (now - t) / 1000 in
  let shown := formatTimeAgo now (Num t) in
  (d <= 30 /\ shown = "just now") \/
  (31 <= d <= 59 /\ shown = (toString d ++ " seconds ago")%string) \/
  (exists n, 1 <= n <= 59 /\ n = d / 60 /\ shown = counted n "minute") \/
  (exists n, 1 <= n <= 23 /\ n = d / 3600 /\ shown = counted n "hour") \/
  (exists n, 1 <= n /\ n = d / 86400 /\ shown = counted n "day").
Proof.
  cbv zeta. rewrite formatTimeAgo_rule. unfold relative_time_rule.
  generalize ((now - t) / 1000) as d. intro d.
  destruct (Z.leb_spec d 30); [left; split; [assumption|reflexivity]|].
  right.
  destruct (Z.ltb_spec d 60); [left; split; [lia|reflexivity]|].
  right.
  destruct (Z.ltb_spec d 3600).
  { left. exists (d / 60). repeat split;
      try reflexivity; Z.div_mod_to_equations; lia. }
  right.
  destruct (Z.ltb_spec d 86400).
  { left. exists (d / 3600). repeat split;
      try reflexivity; Z.div_mod_to_equations; lia. }
  right. exists (d / 86400). repeat split;
    try reflexivity; Z.div_mod_to_equations; lia.
Qed.

End TimeAgoCounts.

(** ** When the fetch effect runs again *)

Module Refetch.
Import Random Model Fetch TimeAgo Ranking Widget Traces WidgetReadings.
Import MergeReadings SortFacts WidgetFacts FetchedFacts WidgetMore.




Lemma fetched_well_formed net w cs acts :
  (forall n, is_unit_draw (dice w n) = true) ->
  fetchLiveContributors net w = Fetched cs acts ->
  Forall well_formed acts.
Proof.
  intros Hd Hf.
  destruct (repos_response net) as [| |[| |repos]] eqn:Hr;
    try (unfold fetchLiveContributors in Hf; rewrite Hr in Hf; discriminate).
  rewrite (FetchMore.fetch_unfold net w repos Hr) in Hf.
  pose proof (collect_synthesized (read_responses net repos) w Hd) as Hs.
  pose proof (collect_unit_draws (read_responses net repos) w Hd) as Hu.
  destruct (collectContributors (read_responses net repos) w) as [m w1].
  cbn [fst snd] in Hs, Hu. cbv zeta in Hf.
  destruct (0 <? _)%nat; [|discriminate]. injection Hf as _ <-.
  set (live := firstn 15 (sort_by by_contributions (map_values m))).
  change (Forall well_formed (fst (synthesizeActivities live w1))).
  pose proof (synthesizeActivities_lockstep live w1) as (_ & Hmap & Hts).
  pose proof (synthesizeActivities_defined live w1 Hu) as Hact.
  apply Forall_forall. intros a Ha.
  rewrite Forall_forall in Hts, Hact, Hs. split; [|now apply Hact].
  assert (Hc : In (contributor a) live) by (rewrite <- Hmap; now apply in_map).
  apply live_incl in Hc. unfold map_values in Hc. apply in_map_iff in Hc.
  destruct Hc as (p & Hp & Hin). specialize (Hs p Hin).
  rewrite Hp in Hs. destruct Hs as (j & offset & _ & E).
  rewrite (Hts a Ha), E. eauto.
Qed.

(** X24: when every draw of [Math.random()] during the fetch cycles of a
    run from mount is a binary64 number in [0, 1), every activity the
    component holds has a numeric timestamp, never [NaN], and one of the
    four actions, never [undefined]. *)
Theorem activities_well_formed (now : Z) (evs : list Event)
    (st : Component) :
  Forall fair_event evs ->
  run (mount now) evs = Some st ->
  Forall well_formed (activities st).
Proof.
  intros Hfair.
  enough (H : forall st0, Forall well_formed (activities st0) ->
                          run st0 evs = Some st ->
                          Forall well_formed (activities st))
    by (apply H; constructor).
  induction Hfair as [|ev evs Hev _ IH]; intros st0 H0; cbn [run].
  - intro H; injection H as <-. exact H0.
  - destruct (step st0 ev) as [st1|] eqn:Hs; [|discriminate].
    apply IH. apply step_lists in Hs.
    destruct ev; try (destruct Hs as [_ ->]; exact H0).
    destruct (fetchLiveContributors net w) as [cs acts|e] eqn:Hf;
      destruct Hs as [_ ->]; [|exact H0].
    exact (fetched_well_formed net w cs acts Hev Hf).
Qed.

Lemma activities_well_formed_witness :
  Forall fair_event Scenario.recovered /\
  run (mount Scenario.start) Scenario.recovered =
    Some Scenario.after_recovered /\
  List.length (activities Scenario.after_recovered) = 2%nat /\
  Forall well_formed (activities Scenario.after_recovered).
Proof.
  assert (Hf : Forall fair_event Scenario.recovered).
  { repeat constructor; intro n; vm_compute; reflexivity. }
  split; [exact Hf|]. split; [vm_compute; reflexivity|].
  split; [vm_compute; reflexivity|].
  apply (activities_well_formed Scenario.start Scenario.recovered
           Scenario.after_recovered Hf).
  vm_compute; reflexivity.
Defined.

End Refetch.
